(** * OCR_Translate: the dual-box overlay and its capture pipeline

    A shallow embedding of [src/OCR_Translate.py] (the file
    [src/PythonApplication1.py] is an earlier copy of the same program without
    geometry persistence).

    Conventions of the embedding:
    - a Python [str] is a list of Unicode code points ([list N]);
    - Python integers are [Z]; Qt stores coordinates in C [int]s, and all the
      coordinates handled here (pointer positions, screen sizes, rectangles
      clamped to the screen) are taken inside that range, so no wrap-around
      is written out;
    - an object mutated in place ([self.rect.moveTo(...)], [self.dragging =
      True]) becomes a record that is passed in and returned;
    - a call that may raise returns a [result]. *)

From Stdlib Require Import ZArith NArith List Bool Lia String Ascii DecimalString.
From Stdlib Require Import DecimalPos.
Import ListNotations.

Local Open Scope Z_scope.

(** ** Python values *)

(** A [str]: the sequence of its code points. *)
Definition str : Type := list N.

(** An ASCII literal as a [str]. *)
Definition lit (s : string) : str :=
  List.map N_of_ascii (list_ascii_of_string s).

(** Exceptions.  [except Exception] catches every class but the last. *)
Inductive exn : Type :=
| ValueError (msg : string)
| OverflowError (msg : string)
| AttributeError (msg : string)
| ExternalError (cls : string) (msg : string)
| BaseExceptionOnly (cls : string).

Definition is_Exception (e : exn) : bool :=
  match e with
  | BaseExceptionOnly _ => false
  | _ => true
  end.

Inductive result (A : Type) : Type :=
| Ok (a : A)
| Raise (e : exn).

Arguments Ok {A} a.
Arguments Raise {A} e.

Definition bind {A B : Type} (r : result A) (k : A -> result B) : result B :=
  match r with
  | Ok a => k a
  | Raise e => Raise e
  end.

Notation "x <- r ;; k" := (bind r (fun x => k))
  (at level 61, r at next level, right associativity).

(** ** Qt geometry *)

(** [QPoint]: a pair of integer coordinates. *)
Module QPoint.

Record t : Type := mk { x : Z; y : Z }.

(** [QPoint()] is the null point. *)
Definition null : t := mk 0 0.

(** [p1 - p2]. *)
Definition sub (p1 p2 : t) : t := mk (x p1 - x p2) (y p1 - y p2).

End QPoint.

(** [QRect]: Qt keeps the two corners [(x1, y1)] and [(x2, y2)], both
    inside the rectangle, so that [right() = left() + width() - 1]. *)
Module QRect.

Record t : Type := mk { x1 : Z; y1 : Z; x2 : Z; y2 : Z }.

(** [QRect(left, top, width, height)]. *)
Definition make (aleft atop awidth aheight : Z) : t :=
  mk aleft atop (aleft + awidth - 1) (atop + aheight - 1).

Definition x (r : t) : Z := x1 r.
Definition y (r : t) : Z := y1 r.
Definition left (r : t) : Z := x1 r.
Definition top (r : t) : Z := y1 r.
Definition right (r : t) : Z := x2 r.
Definition bottom (r : t) : Z := y2 r.
Definition width (r : t) : Z := x2 r - x1 r + 1.
Definition height (r : t) : Z := y2 r - y1 r + 1.

(** [moveTo(ax, ay)]: the top-left corner goes to [(ax, ay)], the size is
    kept. *)
Definition moveTo (r : t) (ax ay : Z) : t :=
  mk ax ay (x2 r + (ax - x1 r)) (y2 r + (ay - y1 r)).

Definition setWidth (r : t) (w : Z) : t :=
  mk (x1 r) (y1 r) (x1 r + w - 1) (y2 r).

Definition setHeight (r : t) (h : Z) : t :=
  mk (x1 r) (y1 r) (x2 r) (y1 r + h - 1).

(** [contains(p)] with [proper = false]: edges count as inside; a rectangle
    whose corners are swapped is read with the corners exchanged. *)
Definition contains (r : t) (p : QPoint.t) : bool :=
  let l := if x2 r <? x1 r - 1 then x2 r else x1 r in
  let rr := if x2 r <? x1 r - 1 then x1 r else x2 r in
  if (QPoint.x p <? l) || (rr <? QPoint.x p) then false
  else
    let tp := if y2 r <? y1 r - 1 then y2 r else y1 r in
    let b := if y2 r <? y1 r - 1 then y1 r else y2 r in
    if (QPoint.y p <? tp) || (b <? QPoint.y p) then false
    else true.

End QRect.

(** ** [DraggableResizableBox] *)

Inductive Font : Type :=
| DefaultFont
| NamedFont (family : string) (pointSize : Z).

(** The attributes set by [__init__]; the back reference [parent] is the
    overlay, whose [screen_width] and [screen_height] are passed to the one
    method that reads them. *)
Record DraggableResizableBox : Type := mkBox {
  rect : QRect.t;
  color : Z * Z * Z;
  is_translation_box : bool;
  dragging : bool;
  resizing : bool;
  resize_margin : Z;
  drag_start : QPoint.t;
  font : Font
}.

Definition new_box (initial_rect : QRect.t) (acolor : Z * Z * Z)
  (translation : bool) : DraggableResizableBox :=
  {| rect := initial_rect;
     color := acolor;
     is_translation_box := translation;
     dragging := false;
     resizing := false;
     resize_margin := 10;
     drag_start := QPoint.null;
     font := if translation then NamedFont "Arial" 20 else DefaultFont |}.

(** The test of the inner [if] of [mouse_press_event]: the point is closer
    than [resize_margin] to [right()] and to [bottom()]. *)
Definition in_resize_corner (b : DraggableResizableBox) (p : QPoint.t) : bool :=
  (Z.abs (QPoint.x p - QRect.right (rect b)) <? resize_margin b)
  && (Z.abs (QPoint.y p - QRect.bottom (rect b)) <? resize_margin b).

(** [mouse_press_event]: the box after the event, and whether the event was
    accepted ([event.accept()]) or ignored. *)
Definition mouse_press_event (b : DraggableResizableBox) (pos : QPoint.t)
  : DraggableResizableBox * bool :=
  if QRect.contains (rect b) pos then
    if in_resize_corner b pos then
      ({| rect := rect b; color := color b;
          is_translation_box := is_translation_box b;
          dragging := dragging b; resizing := true;
          resize_margin := resize_margin b;
          drag_start := pos; font := font b |}, true)
    else
      ({| rect := rect b; color := color b;
          is_translation_box := is_translation_box b;
          dragging := true; resizing := resizing b;
          resize_margin := resize_margin b;
          drag_start := pos; font := font b |}, true)
  else (b, false).

Definition with_rect (b : DraggableResizableBox) (r : QRect.t)
  (anchor : QPoint.t) : DraggableResizableBox :=
  {| rect := r; color := color b;
     is_translation_box := is_translation_box b;
     dragging := dragging b; resizing := resizing b;
     resize_margin := resize_margin b;
     drag_start := anchor; font := font b |}.

(** [mouse_move_event]: the box after the event and the returned flag. *)
Definition mouse_move_event (screen_width screen_height : Z)
  (b : DraggableResizableBox) (pos : QPoint.t) : DraggableResizableBox * bool :=
  if dragging b then
    let delta := QPoint.sub pos (drag_start b) in
    let new_x := QRect.x (rect b) + QPoint.x delta in
    let new_y := QRect.y (rect b) + QPoint.y delta in
    let new_x := Z.max 0 (Z.min new_x (screen_width - QRect.width (rect b))) in
    let new_y := Z.max 0 (Z.min new_y (screen_height - QRect.height (rect b))) in
    (with_rect b (QRect.moveTo (rect b) new_x new_y) pos, true)
  else if resizing b then
    let delta := QPoint.sub pos (drag_start b) in
    let new_width := Z.max (QRect.width (rect b) + QPoint.x delta) 100 in
    let new_height := Z.max (QRect.height (rect b) + QPoint.y delta) 50 in
    let new_width := Z.min new_width (screen_width - QRect.x (rect b)) in
    let new_height := Z.min new_height (screen_height - QRect.y (rect b)) in
    (with_rect b
       (QRect.setHeight (QRect.setWidth (rect b) new_width) new_height) pos,
     true)
  else (b, false).

Definition mouse_release_event (b : DraggableResizableBox)
  : DraggableResizableBox :=
  {| rect := rect b; color := color b;
     is_translation_box := is_translation_box b;
     dragging := false; resizing := false;
     resize_margin := resize_margin b;
     drag_start := drag_start b; font := font b |}.

Definition contains_point (b : DraggableResizableBox) (pos : QPoint.t) : bool :=
  QRect.contains (rect b) pos.

(** The interaction mode the two flags stand for, read as
    [mouse_move_event] reads them: [dragging] is tested first. *)
Inductive Mode : Type := Idle | Dragging | Resizing.

Definition mode_of (b : DraggableResizableBox) : Mode :=
  if dragging b then Dragging
  else if resizing b then Resizing
  else Idle.

(** The boxes after each of a sequence of move events. *)
Fixpoint move_states (screen_width screen_height : Z)
  (b : DraggableResizableBox) (events : list QPoint.t)
  : list DraggableResizableBox :=
  match events with
  | [] => []
  | pos :: rest =>
      let b' := fst (mouse_move_event screen_width screen_height b pos) in
      b' :: move_states screen_width screen_height b' rest
  end.

(** The invariant the data model states for a rectangle on a screen. *)
Definition rect_invariant (screen_width screen_height : Z) (r : QRect.t) : Prop :=
  100 <= QRect.width r /\ 50 <= QRect.height r /\
  0 <= QRect.x r /\ 0 <= QRect.y r /\
  QRect.x r + QRect.width r <= screen_width /\
  QRect.y r + QRect.height r <= screen_height.

(** ** Python strings: [str.strip], [str.split] and [int] *)

(** [str.isspace] of one code point (the set [str.strip()] removes). *)
Definition isspace (c : N) : bool :=
  (((9 <=? c) && (c <=? 13)) || ((28 <=? c) && (c <=? 32))
   || (c =? 133) || (c =? 160) || (c =? 5760)
   || ((8192 <=? c) && (c <=? 8202))
   || (c =? 8232) || (c =? 8233) || (c =? 8239) || (c =? 8287)
   || (c =? 12288))%N.

Fixpoint lstrip (s : str) : str :=
  match s with
  | [] => []
  | c :: rest => if isspace c then lstrip rest else s
  end.

Definition rstrip (s : str) : str := rev (lstrip (rev s)).

Definition strip (s : str) : str := rstrip (lstrip s).

(** Truth value of a [str]: it is non-empty. *)
Definition truthy (s : str) : bool :=
  match s with
  | [] => false
  | _ :: _ => true
  end.

(** [s.split(sep)] for a separator of one code point. *)
Fixpoint split (sep : N) (s : str) : list str :=
  match s with
  | [] => [[]]
  | c :: rest =>
      if (c =? sep)%N then [] :: split sep rest
      else match split sep rest with
           | [] => [[c]]
           | field :: fields => (c :: field) :: fields
           end
  end.

Definition comma : N := 44%N.

(** The white space [int] skips once the text is ASCII. *)
Definition c_isspace (c : N) : bool :=
  (((9 <=? c) && (c <=? 13)) || (c =? 32))%N.

Fixpoint skip_c_space (s : str) : str :=
  match s with
  | [] => []
  | c :: rest => if c_isspace c then skip_c_space rest else s
  end.

Definition digit_of (c : N) : option Z :=
  if ((48 <=? c) && (c <=? 57))%N then Some (Z.of_N (c - 48)) else None.

Inductive scan_state : Type := AtStart | AfterDigit | AfterUnderscore.

(** The digits of a decimal literal, single underscores allowed between
    two digits: the value and the text left, or [None] for a literal with
    no digit, a leading, doubled or trailing underscore. *)
Fixpoint scan_digits (st : scan_state) (acc : Z) (s : str)
  : option (Z * str) :=
  match s with
  | [] =>
      match st with
      | AfterDigit => Some (acc, [])
      | _ => None
      end
  | c :: rest =>
      match digit_of c with
      | Some d => scan_digits AfterDigit (10 * acc + d) rest
      | None =>
          if (c =? 95)%N then
            match st with
            | AfterDigit => scan_digits AfterUnderscore acc rest
            | _ => None
            end
          else
            match st with
            | AfterDigit => Some (acc, s)
            | _ => None
            end
      end
  end.

Definition invalid_literal : exn :=
  ValueError "invalid literal for int() with base 10".

Section PyInt.

(** The decimal value of a code point above ASCII, for the digits of other
    scripts ([unicodedata.decimal]); the table is Unicode's, not the
    program's. *)
Variable todecimal : N -> option N.

(** [int] first rewrites the text to ASCII: white space above ASCII becomes
    a blank and a decimal digit its ASCII digit; any other code point above
    ASCII makes the literal invalid. *)
Definition to_ascii (c : N) : option N :=
  if (c <? 127)%N then Some c
  else if isspace c then Some 32%N
  else match todecimal c with
       | Some d => Some (48 + d)%N
       | None => None
       end.

Fixpoint transform (s : str) : option str :=
  match s with
  | [] => Some []
  | c :: rest =>
      match to_ascii c with
      | Some a =>
          match transform rest with
          | Some rest' => Some (a :: rest')
          | None => None
          end
      | None => None
      end
  end.

Definition split_sign (s : str) : Z * str :=
  match s with
  | c :: rest =>
      if (c =? 43)%N then (1, rest)
      else if (c =? 45)%N then (-1, rest)
      else (1, s)
  | [] => (1, [])
  end.

(** [int(s)] for a [str] argument, base 10. *)
Definition int (s : str) : result Z :=
  match transform s with
  | None => Raise invalid_literal
  | Some a =>
      let (sign, body) := split_sign (skip_c_space a) in
      match scan_digits AtStart 0 body with
      | Some (v, rest) =>
          match skip_c_space rest with
          | [] => Ok (sign * v)
          | _ :: _ => Raise invalid_literal
          end
      | None => Raise invalid_literal
      end
  end.

(** [left, top, width, height = map(int, data.split(","))]: [map] is lazy,
    so the fields are converted one by one as the unpacking asks for them,
    and a fifth field is converted before the unpacking gives up. *)
Definition parse_geometry (data : str) : result (Z * Z * Z * Z) :=
  match split comma data with
  | f1 :: f2 :: f3 :: f4 :: more =>
      aleft <- int f1 ;;
      atop <- int f2 ;;
      awidth <- int f3 ;;
      aheight <- int f4 ;;
      match more with
      | [] => Ok (aleft, atop, awidth, aheight)
      | f5 :: _ =>
          _ <- int f5 ;;
          Raise (ValueError "too many values to unpack (expected 4)")
      end
  | [f1; f2; f3] =>
      _ <- int f1 ;; _ <- int f2 ;; _ <- int f3 ;;
      Raise (ValueError "not enough values to unpack (expected 4, got 3)")
  | [f1; f2] =>
      _ <- int f1 ;; _ <- int f2 ;;
      Raise (ValueError "not enough values to unpack (expected 4, got 2)")
  | [f1] =>
      _ <- int f1 ;;
      Raise (ValueError "not enough values to unpack (expected 4, got 1)")
  | [] =>
      Raise (ValueError "not enough values to unpack (expected 4, got 0)")
  end.

End PyInt.

(** ** [QRect] built from Python integers *)

Definition INT_MIN : Z := -2147483648.
Definition INT_MAX : Z := 2147483647.

Definition in_int_range (v : Z) : bool := (INT_MIN <=? v) && (v <=? INT_MAX).

(** The binding converts each argument to a C [int] and raises
    [OverflowError] for a value that does not fit. *)
Definition QRect_of_ints (aleft atop awidth aheight : Z) : result QRect.t :=
  if in_int_range aleft && in_int_range atop
     && in_int_range awidth && in_int_range aheight
  then Ok (QRect.make aleft atop awidth aheight)
  else Raise (OverflowError "argument overflowed").

(** ** [QSettings]: the persisted key-value store *)

(** What [settings.value] hands back for a stored entry.  The source's
    comment names the two cases of a string and of a list: an entry written
    as a quoted text (what [closeEvent] stores) comes back as a [str], an
    entry written as unquoted fields between commas comes back as a list of
    [str].  [VObject] stands for any other object that has no [split]
    attribute (an [int] read from the registry, a [float], a [bool]), named
    by its type.  Objects other than [str] that do have a [split] (byte
    strings) are not covered. *)
Inductive QVariant : Type :=
| VStr (text : str)
| VList (items : list str)
| VObject (type_name : string).

Definition QSettings : Type := list (string * QVariant).

(** [settings.value(key, None)]. *)
Fixpoint value (settings : QSettings) (key : string) : option QVariant :=
  match settings with
  | [] => None
  | (k, v) :: rest => if String.eqb k key then Some v else value rest key
  end.

(** [settings.setValue(key, v)]. *)
Fixpoint setValue (settings : QSettings) (key : string) (v : QVariant)
  : QSettings :=
  match settings with
  | [] => [(key, v)]
  | (k, old) :: rest =>
      if String.eqb k key then (k, v) :: rest
      else (k, old) :: setValue rest key v
  end.

(** ** [Overlay] *)

(** The attributes of the overlay the model follows.  [update_requests]
    counts the calls of [self.update()], and [posted] holds the arguments of
    the queued [update_translation] calls not yet run by the event loop. *)
Record Overlay : Type := mkOverlay {
  translated_text : str;
  screen_width : Z;
  screen_height : Z;
  settings : QSettings;
  selection_box : DraggableResizableBox;
  translation_box : DraggableResizableBox;
  running : bool;
  update_requests : nat;
  posted : list str
}.

Definition default_selection_rect : QRect.t := QRect.make 100 100 300 200.
Definition default_translation_rect : QRect.t := QRect.make 420 100 300 200.

Section Startup.

Variable todecimal : N -> option N.

(** The block [init_ui] runs for each of the two keys: when something is
    stored, [data.split(",")] is called on it, whatever it is, and the
    fields are parsed; the default rectangle is taken when nothing is
    stored.  An object without a [split] attribute raises [AttributeError]
    at that call. *)
Definition load_geometry (data : option QVariant) (default : QRect.t)
  : result QRect.t :=
  match data with
  | Some (VStr text) =>
      match parse_geometry todecimal text with
      | Ok (aleft, atop, awidth, aheight) =>
          QRect_of_ints aleft atop awidth aheight
      | Raise e => Raise e
      end
  | Some (VList _) =>
      Raise (AttributeError "'list' object has no attribute 'split'")
  | Some (VObject type_name) =>
      Raise (AttributeError
               ("'" ++ type_name ++ "' object has no attribute 'split'"))
  | None => Ok default
  end.

(** [init_ui], on a primary screen of the given size, preceded by the
    assignment [self.translated_text = ""] of [__init__].  [running] is not
    assigned yet; it is shown as [false]. *)
Definition init_ui (width height : Z) (stored : QSettings) : result Overlay :=
  selection_rect <-
    load_geometry (value stored "selection_box_geometry")
      default_selection_rect ;;
  translation_rect <-
    load_geometry (value stored "translation_box_geometry")
      default_translation_rect ;;
  Ok {| translated_text := [];
        screen_width := width;
        screen_height := height;
        settings := stored;
        selection_box := new_box selection_rect (0, 255, 0) false;
        translation_box := new_box translation_rect (0, 0, 0) true;
        running := false;
        update_requests := 0;
        posted := [] |}.

Definition init_translator (o : Overlay) : Overlay :=
  {| translated_text := translated_text o;
     screen_width := screen_width o;
     screen_height := screen_height o;
     settings := settings o;
     selection_box := selection_box o;
     translation_box := translation_box o;
     running := true;
     update_requests := update_requests o;
     posted := posted o |}.

(** [Overlay.__init__]; the capture thread it starts is modelled below. *)
Definition Overlay_init (width height : Z) (stored : QSettings)
  : result Overlay :=
  o <- init_ui width height stored ;;
  Ok (init_translator o).



End Startup.

(** ** The overlay's event handlers (UI thread) *)

Definition set_boxes (o : Overlay) (sel tr : DraggableResizableBox)
  (updates : nat) : Overlay :=
  {| translated_text := translated_text o;
     screen_width := screen_width o;
     screen_height := screen_height o;
     settings := settings o;
     selection_box := sel;
     translation_box := tr;
     running := running o;
     update_requests := updates;
     posted := posted o |}.

Definition mousePressEvent (o : Overlay) (pos : QPoint.t) : Overlay :=
  if contains_point (translation_box o) pos then
    set_boxes o (selection_box o)
      (fst (mouse_press_event (translation_box o) pos)) (update_requests o)
  else if contains_point (selection_box o) pos then
    set_boxes o (fst (mouse_press_event (selection_box o) pos))
      (translation_box o) (update_requests o)
  else o.

Definition mouseMoveEvent (o : Overlay) (pos : QPoint.t) : Overlay :=
  let tr_move :=
    mouse_move_event (screen_width o) (screen_height o)
      (translation_box o) pos in
  let tr_active := dragging (translation_box o) || resizing (translation_box o) in
  if tr_active && snd tr_move then
    set_boxes o (selection_box o) (fst tr_move) (S (update_requests o))
  else
    let tr := if tr_active then fst tr_move else translation_box o in
    let sel_move :=
      mouse_move_event (screen_width o) (screen_height o)
        (selection_box o) pos in
    let sel_active := dragging (selection_box o) || resizing (selection_box o) in
    if sel_active && snd sel_move then
      set_boxes o (fst sel_move) tr (S (update_requests o))
    else
      set_boxes o (if sel_active then fst sel_move else selection_box o) tr
        (update_requests o).

Definition mouseReleaseEvent (o : Overlay) : Overlay :=
  set_boxes o (mouse_release_event (selection_box o))
    (mouse_release_event (translation_box o)) (update_requests o).

(** The slot [update_translation].  [self.translation_box.parent] is the
    overlay itself, so the two assignments write the same attribute. *)
Definition update_translation (o : Overlay) (text : str) : Overlay :=
  {| translated_text := text;
     screen_width := screen_width o;
     screen_height := screen_height o;
     settings := settings o;
     selection_box := selection_box o;
     translation_box := translation_box o;
     running := running o;
     update_requests := S (update_requests o);
     posted := posted o |}.

(** The event loop running the queued calls, oldest first. *)
Definition deliver_posted (o : Overlay) : Overlay :=
  fold_left update_translation (posted o)
    {| translated_text := translated_text o;
       screen_width := screen_width o;
       screen_height := screen_height o;
       settings := settings o;
       selection_box := selection_box o;
       translation_box := translation_box o;
       running := running o;
       update_requests := update_requests o;
       posted := [] |}.

(** An integer as an f-string writes it. *)
Definition str_of_int (v : Z) : str :=
  lit (NilZero.string_of_int (Z.to_int v)).

(** The text [closeEvent] stores for a rectangle: left, top, width and
    height between commas. *)
Definition geometry_text (r : QRect.t) : str :=
  str_of_int (QRect.left r) ++ [comma] ++ str_of_int (QRect.top r) ++ [comma]
  ++ str_of_int (QRect.width r) ++ [comma] ++ str_of_int (QRect.height r).

(** [closeEvent]: both geometries are stored and [running] is cleared; the
    handler then waits for the capture thread. *)
Definition closeEvent (o : Overlay) : Overlay :=
  {| translated_text := translated_text o;
     screen_width := screen_width o;
     screen_height := screen_height o;
     settings :=
       setValue
         (setValue (settings o) "selection_box_geometry"
            (VStr (geometry_text (rect (selection_box o)))))
         "translation_box_geometry"
         (VStr (geometry_text (rect (translation_box o))));
     selection_box := selection_box o;
     translation_box := translation_box o;
     running := false;
     update_requests := update_requests o;
     posted := posted o |}.

(** ** The capture thread *)

(** The dictionary [monitor]. *)
Record Monitor : Type := mkMonitor {
  top : Z;
  left : Z;
  width : Z;
  height : Z
}.

(** The dictionary read from one rectangle. *)
Definition rect_monitor (r : QRect.t) : Monitor :=
  {| top := QRect.top r;
     left := QRect.left r;
     width := QRect.width r;
     height := QRect.height r |}.

(** The four reads of one iteration with nothing running in between. *)
Definition snapshot (b : DraggableResizableBox) : Monitor :=
  rect_monitor (rect b).

(** What one line written by [print] shows. *)
Inductive line : Type :=
| OcrText (text : str)
| TranslationResult (translated : str)
| CaptureOrTranslateError (e : exn).

(** The calls of the capture thread that reach outside of it. *)
Inductive action : Type :=
| Grab (m : Monitor)
| FromBytes
| ImageToString
| Translate (text : str)
| Print (l : line)
| InvokeUpdateTranslation (translated : str)
| Sleep (milliseconds : Z).

Section Pipeline.

(** The results of [sct.grab] and of [Image.frombytes]. *)
Variables ScreenShot Image : Type.

(** The collaborators as one iteration finds them: screen capture, image
    construction, text recognition (for [lang='eng']) and translation (from
    ['en'] to ['zh-cn'], giving the [.text] of the answer).  Each may raise. *)
Record Collaborators : Type := mkCollaborators {
  grab : Monitor -> result ScreenShot;
  frombytes : ScreenShot -> result Image;
  image_to_string : Image -> result str;
  translate : str -> result str
}.

(** A computation of the thread: the actions performed, in order, and the
    value returned or the exception raised. *)
Definition M (A : Type) : Type := (list action * result A)%type.

Definition ret {A : Type} (a : A) : M A := ([], Ok a).

Definition bindM {A B : Type} (m : M A) (k : A -> M B) : M B :=
  match m with
  | (t, Ok a) => let (t', r) := k a in (t ++ t', r)
  | (t, Raise e) => (t, Raise e)
  end.

Definition call {A : Type} (a : action) (r : result A) : M A := ([a], r).

Definition emit (a : action) : M unit := ([a], Ok tt).

(** The body of the [try]. *)
Definition try_body (c : Collaborators) (monitor : Monitor) : M unit :=
  bindM (call (Grab monitor) (grab c monitor)) (fun sct_img =>
  bindM (call FromBytes (frombytes c sct_img)) (fun img =>
  bindM (call ImageToString (image_to_string c img)) (fun text =>
  bindM (emit (Print (OcrText text))) (fun _ =>
  if truthy (strip text) then
    bindM (call (Translate text) (translate c text)) (fun translated =>
    bindM (emit (Print (TranslationResult translated))) (fun _ =>
    emit (InvokeUpdateTranslation translated)))
  else ret tt)))).

(** The arguments of the queued calls among some actions. *)
Fixpoint invoked (t : list action) : list str :=
  match t with
  | [] => []
  | InvokeUpdateTranslation s :: rest => s :: invoked rest
  | _ :: rest => invoked rest
  end.

Definition post (o : Overlay) (texts : list str) : Overlay :=
  {| translated_text := translated_text o;
     screen_width := screen_width o;
     screen_height := screen_height o;
     settings := settings o;
     selection_box := selection_box o;
     translation_box := translation_box o;
     running := running o;
     update_requests := update_requests o;
     posted := posted o ++ texts |}.

(** Where the thread stands: about to test [self.running] again, out of the
    loop, or ended by an exception that left the loop. *)
Inductive thread : Type :=
| AtLoopHead
| Finished
| Died (e : exn).

(** One pass through the body of the [while]: [except Exception] catches
    what the [try] raises, then the thread sleeps. *)
Definition iteration (c : Collaborators) (o : Overlay)
  : list action * Overlay * thread :=
  let monitor := snapshot (selection_box o) in
  match try_body c monitor with
  | (t, Ok _) => (t ++ [Sleep 200], post o (invoked t), AtLoopHead)
  | (t, Raise e) =>
      if is_Exception e then
        (t ++ [Print (CaptureOrTranslateError e); Sleep 200],
         post o (invoked t), AtLoopHead)
      else (t, post o (invoked t), Died e)
  end.

(** [capture_and_translate] against the collaborators of the successive
    iterations; the list bounds how many iterations are followed. *)
Fixpoint capture_and_translate (cs : list Collaborators) (o : Overlay)
  : list action * Overlay * thread :=
  match cs with
  | [] => ([], o, AtLoopHead)
  | c :: rest =>
      if running o then
        match iteration c o with
        | (t, o', AtLoopHead) =>
            match capture_and_translate rest o' with
            | (t', o'', th) => (t ++ t', o'', th)
            end
        | (t, o', th) => (t, o', th)
        end
      else ([], o, Finished)
  end.

End Pipeline.

Arguments grab {ScreenShot Image} c m.
Arguments frombytes {ScreenShot Image} c s.
Arguments image_to_string {ScreenShot Image} c i.
Arguments translate {ScreenShot Image} c s.
Arguments try_body {ScreenShot Image} c monitor.
Arguments iteration {ScreenShot Image} c o.
Arguments capture_and_translate {ScreenShot Image} cs o.

(** ** The two threads together *)

Inductive ui_event : Type :=
| Press (pos : QPoint.t)
| Move (pos : QPoint.t)
| Release.

Definition ui_step (o : Overlay) (e : ui_event) : Overlay :=
  match e with
  | Press pos => mousePressEvent o pos
  | Move pos => mouseMoveEvent o pos
  | Release => mouseReleaseEvent o
  end.

(** A schedule interleaves the reads that build [monitor] with the event
    handlers of the UI thread: the interpreter may switch threads between
    any two of the four method calls, and the source takes no lock. *)
Inductive tick : Type :=
| PipelineRead
| UiEvent (e : ui_event).

(** The [k]-th value of the dictionary, in the order the source evaluates
    them. *)
Definition read_field (r : QRect.t) (k : nat) : Z :=
  match k with
  | O => QRect.top r
  | S O => QRect.left r
  | S (S O) => QRect.width r
  | _ => QRect.height r
  end.

(** The values read so far, and the overlay, after a schedule. *)
Fixpoint build_monitor (sched : list tick) (o : Overlay) (reads : list Z)
  : Overlay * list Z :=
  match sched with
  | [] => (o, reads)
  | PipelineRead :: rest =>
      build_monitor rest o
        (reads ++ [read_field (rect (selection_box o)) (List.length reads)])
  | UiEvent e :: rest => build_monitor rest (ui_step o e) reads
  end.

Definition monitor_of_reads (reads : list Z) : option Monitor :=
  match reads with
  | [t; l; w; h] => Some {| top := t; left := l; width := w; height := h |}
  | _ => None
  end.

(** The rectangles the selection box holds along a schedule, the first
    one included. *)
Fixpoint selection_history (sched : list tick) (o : Overlay) : list QRect.t :=
  match sched with
  | [] => [rect (selection_box o)]
  | PipelineRead :: rest => selection_history rest o
  | UiEvent e :: rest =>
      rect (selection_box o) :: selection_history rest (ui_step o e)
  end.

Fixpoint count_reads (sched : list tick) : nat :=
  match sched with
  | [] => O
  | PipelineRead :: rest => S (count_reads rest)
  | UiEvent _ :: rest => count_reads rest
  end.

(** The digit table used where a concrete one is needed: the texts of
    those examples are ASCII, for which [int] never looks a code point up. *)
Definition ascii_only : N -> option N := fun _ => None.

(** The text is made of exactly four fields between commas, and [int]
    accepts each of them. *)
Definition four_integers (todecimal : N -> option N) (s : str) : Prop :=
  exists f1 f2 f3 f4 a b c d,
    split comma s = [f1; f2; f3; f4] /\
    int todecimal f1 = Ok a /\ int todecimal f2 = Ok b /\
    int todecimal f3 = Ok c /\ int todecimal f4 = Ok d.

(** ** Concrete instances used in the examples *)

(** The overlay [__init__] builds when nothing is stored. *)
Definition default_overlay (sw sh : Z) : Overlay :=
  {| translated_text := [];
     screen_width := sw;
     screen_height := sh;
     settings := [];
     selection_box := new_box default_selection_rect (0, 255, 0) false;
     translation_box := new_box default_translation_rect (0, 0, 0) true;
     running := true;
     update_requests := 0;
     posted := [] |}.

(** Collaborators that answer the same whatever they are asked. *)
Definition stub_collaborators (captured : result unit) (recognised : str)
  (translated : result str) : Collaborators unit unit :=
  {| grab := fun _ => captured;
     frombytes := fun shot => Ok shot;
     image_to_string := fun _ => Ok recognised;
     translate := fun _ => translated |}.


(** ** Further definitions *)

(** The value of a sequence of decimal digits read from the left, starting
    from [acc]. *)
Fixpoint uint_acc (d : Decimal.uint) (acc : Z) : Z :=
  match d with
  | Decimal.Nil => acc
  | Decimal.D0 l => uint_acc l (10 * acc + 0)
  | Decimal.D1 l => uint_acc l (10 * acc + 1)
  | Decimal.D2 l => uint_acc l (10 * acc + 2)
  | Decimal.D3 l => uint_acc l (10 * acc + 3)
  | Decimal.D4 l => uint_acc l (10 * acc + 4)
  | Decimal.D5 l => uint_acc l (10 * acc + 5)
  | Decimal.D6 l => uint_acc l (10 * acc + 6)
  | Decimal.D7 l => uint_acc l (10 * acc + 7)
  | Decimal.D8 l => uint_acc l (10 * acc + 8)
  | Decimal.D9 l => uint_acc l (10 * acc + 9)
  end.

(** A text without a comma. *)
Definition comma_free (s : str) : Prop := Forall (fun c => c <> comma) s.

(** The four integers of a rectangle fit a C [int]. *)
Definition rect_in_int_range (r : QRect.t) : bool :=
  in_int_range (QRect.left r) && in_int_range (QRect.top r)
  && in_int_range (QRect.width r) && in_int_range (QRect.height r).

(** Both rectangles of the overlay satisfy the invariant of the data
    model on the overlay's screen. *)
Definition boxes_on_screen (o : Overlay) : Prop :=
  rect_invariant (screen_width o) (screen_height o) (rect (selection_box o)) /\
  rect_invariant (screen_width o) (screen_height o) (rect (translation_box o)).

(** The box after a sequence of move events. *)
Definition moves (sw sh : Z) (b : DraggableResizableBox)
  (events : list QPoint.t) : DraggableResizableBox :=
  fold_left (fun b' pos => fst (mouse_move_event sw sh b' pos)) events b.

(** One gesture: a press, the moves that follow it, and the release. *)
Definition gesture (o : Overlay) (press : QPoint.t)
  (move_events : list QPoint.t) : Overlay :=
  mouseReleaseEvent (fold_left mouseMoveEvent move_events (mousePressEvent o press)).

Fixpoint count_sleeps (t : list action) : nat :=
  match t with
  | [] => O
  | Sleep _ :: rest => S (count_sleeps rest)
  | _ :: rest => count_sleeps rest
  end.

(** Collaborators that raise nothing outside [Exception]. *)
Definition raises_only_Exception {ScreenShot Image : Type}
  (c : Collaborators ScreenShot Image) : Prop :=
  (forall m e, grab c m = Raise e -> is_Exception e = true) /\
  (forall s e, frombytes c s = Raise e -> is_Exception e = true) /\
  (forall i e, image_to_string c i = Raise e -> is_Exception e = true) /\
  (forall s e, translate c s = Raise e -> is_Exception e = true).

(** What happens to an overlay besides the capture thread's own steps:
    pointer events, a call queued by the capture thread, the event loop
    running the queued calls. *)
Inductive overlay_event : Type :=
| Pointer (e : ui_event)
| Queued (text : str)
| Delivered.

Definition overlay_step (o : Overlay) (ev : overlay_event) : Overlay :=
  match ev with
  | Pointer e => ui_step o e
  | Queued text => post o [text]
  | Delivered => deliver_posted o
  end.

(** The texts queued by a sequence of events. *)
Fixpoint queued_texts (evs : list overlay_event) : list str :=
  match evs with
  | [] => []
  | Queued text :: rest => text :: queued_texts rest
  | _ :: rest => queued_texts rest
  end.

(** ** Painting *)

(** [QColor(r, g, b, a)]; [QColor(r, g, b)] is opaque. *)
Inductive QColor : Type := rgba (r g b a : Z).

Definition rgb (r g b : Z) : QColor := rgba r g b 255.

Inductive PenStyle : Type := SolidLine | DashLine.

(** The calls [paint] makes on the painter; [DrawText] is the call with
    [Qt.TextWordWrap]. *)
Inductive painter_call : Type :=
| SetRenderHintAntialiasing
| SetPen (c : QColor) (pen_width : Z) (style : PenStyle)
| SetBrush (c : QColor)
| DrawRect (r : QRect.t)
| SetFont (f : Font)
| DrawText (r : QRect.t) (text : str).

(** [rect.adjusted(dx1, dy1, dx2, dy2)]: the offsets are added to the two
    corners. *)
Definition adjusted (r : QRect.t) (dx1 dy1 dx2 dy2 : Z) : QRect.t :=
  QRect.mk (QRect.x1 r + dx1) (QRect.y1 r + dy1)
    (QRect.x2 r + dx2) (QRect.y2 r + dy2).

(** [paint], given the [translated_text] of the parent.  [QPen(color)] is a
    solid pen of width 1. *)
Definition paint (b : DraggableResizableBox) (parent_text : str)
  : list painter_call :=
  let '(r, g, bl) := color b in
  [SetRenderHintAntialiasing;
   SetPen (rgb r g bl) 2 DashLine;
   SetBrush (if is_translation_box b then rgb 0 0 0 else rgba r g bl 50);
   DrawRect (rect b)]
  ++ (if is_translation_box b && truthy parent_text then
        [SetFont (font b);
         SetPen (rgb 255 255 255) 1 SolidLine;
         DrawText (adjusted (rect b) 10 10 (-10) (-10)) parent_text]
      else []).

Definition paintEvent (o : Overlay) : list painter_call :=
  paint (selection_box o) (translated_text o)
  ++ paint (translation_box o) (translated_text o).

Fixpoint drawn_rects (calls : list painter_call) : list QRect.t :=
  match calls with
  | [] => []
  | DrawRect r :: rest => r :: drawn_rects rest
  | _ :: rest => drawn_rects rest
  end.

Fixpoint drawn_texts (calls : list painter_call) : list (QRect.t * str) :=
  match calls with
  | [] => []
  | DrawText r text :: rest => (r, text) :: drawn_texts rest
  | _ :: rest => drawn_texts rest
  end.

(** Which box is which: the flags [__init__] gives the two boxes. *)
Definition box_roles (o : Overlay) : Prop :=
  is_translation_box (selection_box o) = false /\
  is_translation_box (translation_box o) = true.

(** * Properties *)

(** ** Qt geometry *)

Lemma moveTo_width (r : QRect.t) (ax ay : Z) :
  QRect.width (QRect.moveTo r ax ay) = QRect.width r.
Proof. unfold QRect.width, QRect.moveTo; simpl; lia. Qed.

Lemma moveTo_height (r : QRect.t) (ax ay : Z) :
  QRect.height (QRect.moveTo r ax ay) = QRect.height r.
Proof. unfold QRect.height, QRect.moveTo; simpl; lia. Qed.

Lemma moveTo_x (r : QRect.t) (ax ay : Z) : QRect.x (QRect.moveTo r ax ay) = ax.
Proof. reflexivity. Qed.

Lemma moveTo_y (r : QRect.t) (ax ay : Z) : QRect.y (QRect.moveTo r ax ay) = ay.
Proof. reflexivity. Qed.

Lemma resize_width (r : QRect.t) (w h : Z) :
  QRect.width (QRect.setHeight (QRect.setWidth r w) h) = w.
Proof. unfold QRect.width, QRect.setHeight, QRect.setWidth; simpl; lia. Qed.

Lemma resize_height (r : QRect.t) (w h : Z) :
  QRect.height (QRect.setHeight (QRect.setWidth r w) h) = h.
Proof. unfold QRect.height, QRect.setHeight, QRect.setWidth; simpl; lia. Qed.

Lemma resize_x (r : QRect.t) (w h : Z) :
  QRect.x (QRect.setHeight (QRect.setWidth r w) h) = QRect.x r.
Proof. reflexivity. Qed.

Lemma resize_y (r : QRect.t) (w h : Z) :
  QRect.y (QRect.setHeight (QRect.setWidth r w) h) = QRect.y r.
Proof. reflexivity. Qed.

Lemma make_geometry (l t w h : Z) :
  QRect.x (QRect.make l t w h) = l /\ QRect.y (QRect.make l t w h) = t /\
  QRect.width (QRect.make l t w h) = w /\ QRect.height (QRect.make l t w h) = h.
Proof. unfold QRect.x, QRect.y, QRect.width, QRect.height, QRect.make; simpl; lia. Qed.

(** On a rectangle that is not inverted, [contains] is the test of the four
    edges, each of them inside. *)
Lemma contains_edges (r : QRect.t) (p : QPoint.t) :
  0 <= QRect.width r -> 0 <= QRect.height r ->
  (QRect.contains r p = true <->
   QRect.left r <= QPoint.x p <= QRect.right r /\
   QRect.top r <= QPoint.y p <= QRect.bottom r).
Proof.
  unfold QRect.width, QRect.height, QRect.contains, QRect.left, QRect.right,
    QRect.top, QRect.bottom.
  intros Hw Hh.
  destruct (Z.ltb_spec (QRect.x2 r) (QRect.x1 r - 1)); [lia|].
  destruct (Z.ltb_spec (QRect.y2 r) (QRect.y1 r - 1)); [lia|].
  destruct (Z.ltb_spec (QPoint.x p) (QRect.x1 r));
    destruct (Z.ltb_spec (QRect.x2 r) (QPoint.x p));
    destruct (Z.ltb_spec (QPoint.y p) (QRect.y1 r));
    destruct (Z.ltb_spec (QRect.y2 r) (QPoint.y p));
    simpl; split; intros; try lia; try discriminate; reflexivity.
Qed.

(** ** The flags and the mode *)

Lemma mode_of_Idle (b : DraggableResizableBox) :
  mode_of b = Idle <-> dragging b = false /\ resizing b = false.
Proof.
  unfold mode_of; destruct (dragging b), (resizing b);
    split; intros H; try discriminate; try (destruct H; discriminate); auto.
Qed.

Lemma mode_of_Dragging (b : DraggableResizableBox) :
  mode_of b = Dragging <-> dragging b = true.
Proof.
  unfold mode_of; destruct (dragging b), (resizing b);
    split; intros H; try discriminate; auto.
Qed.

Lemma mode_of_Resizing (b : DraggableResizableBox) :
  mode_of b = Resizing <-> dragging b = false /\ resizing b = true.
Proof.
  unfold mode_of; destruct (dragging b), (resizing b);
    split; intros H; try discriminate; try (destruct H; discriminate); auto.
Qed.

(** A move event never touches the two flags. *)
Lemma move_keeps_mode (sw sh : Z) (b : DraggableResizableBox) (pos : QPoint.t) :
  mode_of (fst (mouse_move_event sw sh b pos)) = mode_of b.
Proof.
  unfold mouse_move_event, mode_of.
  destruct (dragging b) eqn:Hd; simpl; [rewrite Hd; reflexivity|].
  destruct (resizing b) eqn:Hr; simpl; rewrite Hd, Hr; reflexivity.
Qed.

(** The two branches of [mouse_move_event], as equations. *)
Lemma move_dragging (sw sh : Z) (b : DraggableResizableBox) (pos : QPoint.t) :
  dragging b = true ->
  mouse_move_event sw sh b pos =
  (with_rect b
     (QRect.moveTo (rect b)
        (Z.max 0 (Z.min (QRect.x (rect b) + (QPoint.x pos - QPoint.x (drag_start b)))
                    (sw - QRect.width (rect b))))
        (Z.max 0 (Z.min (QRect.y (rect b) + (QPoint.y pos - QPoint.y (drag_start b)))
                    (sh - QRect.height (rect b)))))
     pos, true).
Proof. intros Hd; unfold mouse_move_event; rewrite Hd; reflexivity. Qed.

Lemma move_resizing (sw sh : Z) (b : DraggableResizableBox) (pos : QPoint.t) :
  dragging b = false -> resizing b = true ->
  mouse_move_event sw sh b pos =
  (with_rect b
     (QRect.setHeight
        (QRect.setWidth (rect b)
           (Z.min (Z.max (QRect.width (rect b)
                          + (QPoint.x pos - QPoint.x (drag_start b))) 100)
              (sw - QRect.x (rect b))))
        (Z.min (Z.max (QRect.height (rect b)
                       + (QPoint.y pos - QPoint.y (drag_start b))) 50)
           (sh - QRect.y (rect b))))
     pos, true).
Proof. intros Hd Hr; unfold mouse_move_event; rewrite Hd, Hr; reflexivity. Qed.

Lemma move_idle (sw sh : Z) (b : DraggableResizableBox) (pos : QPoint.t) :
  dragging b = false -> resizing b = false ->
  mouse_move_event sw sh b pos = (b, false).
Proof. intros Hd Hr; unfold mouse_move_event; rewrite Hd, Hr; reflexivity. Qed.

(** ** Pointer down *)

(** C4. A pointer-down on an idle box: inside the rectangle and closer than
    10 pixels to both the right and the bottom edge, the box starts
    resizing; anywhere else inside the rectangle, it starts dragging;
    outside the rectangle, the box is left as it is and the event is
    ignored.  Whenever the box leaves the idle mode the anchor is the point
    of the event, and a point that passes both tests resizes (the corner
    test is the one that decides). *)
Theorem pointer_down_from_idle (b : DraggableResizableBox) (pos : QPoint.t)
  (Hidle : mode_of b = Idle) (Hmargin : resize_margin b = 10) :
  let near_corner :=
    Z.abs (QPoint.x pos - QRect.right (rect b)) < 10 /\
    Z.abs (QPoint.y pos - QRect.bottom (rect b)) < 10 in
  let b' := fst (mouse_press_event b pos) in
  (contains_point b pos = true -> near_corner ->
   mode_of b' = Resizing /\ drag_start b' = pos) /\
  (contains_point b pos = true -> ~ near_corner ->
   mode_of b' = Dragging /\ drag_start b' = pos) /\
  (contains_point b pos = false ->
   b' = b /\ mode_of b' = Idle /\ snd (mouse_press_event b pos) = false) /\
  (mode_of b' <> Idle -> drag_start b' = pos) /\
  rect b' = rect b.
Proof.
  apply mode_of_Idle in Hidle as [Hd Hr].
  cbv zeta. unfold contains_point, mouse_press_event, in_resize_corner.
  rewrite Hmargin.
  destruct (QRect.contains (rect b) pos) eqn:Hin.
  - destruct (Z.ltb_spec (Z.abs (QPoint.x pos - QRect.right (rect b))) 10);
      destruct (Z.ltb_spec (Z.abs (QPoint.y pos - QRect.bottom (rect b))) 10);
      simpl; unfold mode_of; simpl; rewrite ?Hd, ?Hr;
      repeat split; intros; try tauto; try discriminate; try lia; auto.
  - simpl. unfold mode_of. rewrite Hd, Hr.
    repeat split; intros; try discriminate; try tauto.
Qed.

Lemma pointer_down_from_idle_witness :
  mode_of (new_box default_selection_rect (0, 255, 0) false) = Idle /\
  resize_margin (new_box default_selection_rect (0, 255, 0) false) = 10 /\
  mode_of (fst (mouse_press_event
                  (new_box default_selection_rect (0, 255, 0) false)
                  (QPoint.mk 395 295))) = Resizing /\
  mode_of (fst (mouse_press_event
                  (new_box default_selection_rect (0, 255, 0) false)
                  (QPoint.mk 150 150))) = Dragging.
Proof.
  split; [reflexivity|]. split; [reflexivity|]. split.
  - apply (pointer_down_from_idle
             (new_box default_selection_rect (0, 255, 0) false)
             (QPoint.mk 395 295) eq_refl eq_refl);
      [reflexivity | simpl; lia].
  - apply (pointer_down_from_idle
             (new_box default_selection_rect (0, 255, 0) false)
             (QPoint.mk 150 150) eq_refl eq_refl);
      [reflexivity | simpl; lia].
Defined.

(** ** Pointer up *)

(** C8. [mouse_release_event] puts the box in the idle mode whatever its
    mode was, leaves rectangle and anchor alone, and changes nothing at all
    on a box that is idle already. *)
Theorem pointer_up_resets_mode (b : DraggableResizableBox) :
  mode_of (mouse_release_event b) = Idle /\
  rect (mouse_release_event b) = rect b /\
  drag_start (mouse_release_event b) = drag_start b /\
  (mode_of b = Idle -> mouse_release_event b = b) /\
  mouse_release_event (mouse_release_event b) = mouse_release_event b.
Proof.
  split; [reflexivity|]. split; [reflexivity|]. split; [reflexivity|].
  split; [|reflexivity].
  intros Hidle. apply mode_of_Idle in Hidle as [Hd Hr].
  destruct b; simpl in *; subst; reflexivity.
Qed.

Lemma pointer_up_resets_mode_witness :
  mode_of (new_box default_selection_rect (0, 255, 0) false) = Idle /\
  mouse_release_event (new_box default_selection_rect (0, 255, 0) false)
  = new_box default_selection_rect (0, 255, 0) false.
Proof.
  split; [reflexivity|].
  apply (proj1 (proj2 (proj2 (proj2 (pointer_up_resets_mode
           (new_box default_selection_rect (0, 255, 0) false)))))).
  reflexivity.
Defined.

(** ** Pointer move *)

(** C10. One move event: while dragging only the position may change, width
    and height are kept; while resizing only width and height may change,
    [x] and [y] are kept; on an idle box nothing changes and the method
    returns [False]. *)
Theorem move_event_frame (sw sh : Z) (b : DraggableResizableBox)
  (pos : QPoint.t) :
  (mode_of b = Dragging ->
   QRect.width (rect (fst (mouse_move_event sw sh b pos))) = QRect.width (rect b) /\
   QRect.height (rect (fst (mouse_move_event sw sh b pos))) = QRect.height (rect b)) /\
  (mode_of b = Resizing ->
   QRect.x (rect (fst (mouse_move_event sw sh b pos))) = QRect.x (rect b) /\
   QRect.y (rect (fst (mouse_move_event sw sh b pos))) = QRect.y (rect b)) /\
  (mode_of b = Idle ->
   fst (mouse_move_event sw sh b pos) = b /\
   rect (fst (mouse_move_event sw sh b pos)) = rect b /\
   snd (mouse_move_event sw sh b pos) = false).
Proof.
  split; [|split].
  - intros H; apply mode_of_Dragging in H.
    rewrite (move_dragging sw sh b pos H); simpl.
    split; [apply moveTo_width | apply moveTo_height].
  - intros H; apply mode_of_Resizing in H as [Hd Hr].
    rewrite (move_resizing sw sh b pos Hd Hr); simpl.
    split; reflexivity.
  - intros H; apply mode_of_Idle in H as [Hd Hr].
    rewrite (move_idle sw sh b pos Hd Hr); simpl. auto.
Qed.

Lemma move_event_frame_witness :
  QRect.width
    (rect (fst (mouse_move_event 1920 1080
                  (fst (mouse_press_event
                          (new_box default_selection_rect (0, 255, 0) false)
                          (QPoint.mk 150 150)))
                  (QPoint.mk 190 130)))) = 300 /\
  QRect.x
    (rect (fst (mouse_move_event 1920 1080
                  (fst (mouse_press_event
                          (new_box default_selection_rect (0, 255, 0) false)
                          (QPoint.mk 395 295)))
                  (QPoint.mk 450 130)))) = 100.
Proof.
  split.
  - apply (proj1 (move_event_frame 1920 1080
                    (fst (mouse_press_event
                            (new_box default_selection_rect (0, 255, 0) false)
                            (QPoint.mk 150 150)))
                    (QPoint.mk 190 130))).
    reflexivity.
  - apply (proj1 (proj2 (move_event_frame 1920 1080
                    (fst (mouse_press_event
                            (new_box default_selection_rect (0, 255, 0) false)
                            (QPoint.mk 395 295)))
                    (QPoint.mk 450 130)))).
    reflexivity.
Defined.

(** ** Sequences of move events *)

(** The boxes of [move_states] are all in the mode of the first one. *)
Lemma move_states_mode (sw sh : Z) (events : list QPoint.t) :
  forall b, Forall (fun b' => mode_of b' = mode_of b) (move_states sw sh b events).
Proof.
  induction events as [|pos rest IH]; intros b; simpl; constructor.
  - apply move_keeps_mode.
  - eapply Forall_impl; [|apply IH].
    intros b' Hb'; simpl in Hb'. rewrite Hb'. apply move_keeps_mode.
Qed.

(** When every move event in a given mode keeps [Q] and establishes [R],
    [R] holds after each event of a sequence started from [Q]. *)
Lemma move_states_invariant (sw sh : Z) (m : Mode)
  (Q R : DraggableResizableBox -> Prop) :
  (forall b pos, mode_of b = m -> Q b ->
                 Q (fst (mouse_move_event sw sh b pos)) /\
                 R (fst (mouse_move_event sw sh b pos))) ->
  forall events b, mode_of b = m -> Q b ->
                   Forall R (move_states sw sh b events).
Proof.
  intros Hstep events.
  induction events as [|pos rest IH]; intros b Hm HQ; simpl; constructor.
  - apply Hstep; assumption.
  - apply IH.
    + rewrite move_keeps_mode; assumption.
    + apply Hstep; assumption.
Qed.

(** One resize step keeps the invariant of the data model: the cap
    [screen_width - x] is at least the current width, hence at least 100. *)
Lemma resize_step_invariant (sw sh : Z) (b : DraggableResizableBox)
  (pos : QPoint.t) :
  mode_of b = Resizing ->
  rect_invariant sw sh (rect b) ->
  rect_invariant sw sh (rect (fst (mouse_move_event sw sh b pos))).
Proof.
  intros Hm Hinv. apply mode_of_Resizing in Hm as [Hd Hr].
  rewrite (move_resizing sw sh b pos Hd Hr); simpl.
  unfold rect_invariant in *.
  rewrite resize_width, resize_height, resize_x, resize_y.
  lia.
Qed.

(** C2. From a rectangle that satisfies the invariant of the data model, on
    a box that is resizing, after every move event of any sequence:
    [width >= 100], [height >= 50], [x + width <= screen_width] and
    [y + height <= screen_height]. *)
Theorem resize_keeps_minimum_and_screen (sw sh : Z)
  (b : DraggableResizableBox) (events : list QPoint.t)
  (Hmode : mode_of b = Resizing)
  (Hinv : rect_invariant sw sh (rect b)) :
  Forall (fun b' =>
            100 <= QRect.width (rect b') /\
            50 <= QRect.height (rect b') /\
            QRect.x (rect b') + QRect.width (rect b') <= sw /\
            QRect.y (rect b') + QRect.height (rect b') <= sh)
         (move_states sw sh b events).
Proof.
  apply (move_states_invariant sw sh Resizing
           (fun b' => rect_invariant sw sh (rect b'))); [| exact Hmode | exact Hinv].
  intros b0 pos Hm HQ.
  pose proof (resize_step_invariant sw sh b0 pos Hm HQ) as Hnext.
  split; [exact Hnext|].
  unfold rect_invariant in Hnext. tauto.
Qed.

Lemma resize_keeps_minimum_and_screen_witness :
  mode_of (fst (mouse_press_event
                  (new_box default_selection_rect (0, 255, 0) false)
                  (QPoint.mk 395 295))) = Resizing /\
  rect_invariant 1920 1080 default_selection_rect /\
  Forall (fun b' =>
            100 <= QRect.width (rect b') /\
            50 <= QRect.height (rect b') /\
            QRect.x (rect b') + QRect.width (rect b') <= 1920 /\
            QRect.y (rect b') + QRect.height (rect b') <= 1080)
         (move_states 1920 1080
            (fst (mouse_press_event
                    (new_box default_selection_rect (0, 255, 0) false)
                    (QPoint.mk 395 295)))
            [QPoint.mk (-5000) (-5000); QPoint.mk 9000 9000]).
Proof.
  assert (Hinv : rect_invariant 1920 1080 default_selection_rect)
    by (unfold rect_invariant, default_selection_rect, QRect.width,
          QRect.height, QRect.x, QRect.y; simpl; lia).
  split; [reflexivity|]. split; [exact Hinv|].
  apply (resize_keeps_minimum_and_screen 1920 1080
           (fst (mouse_press_event
                   (new_box default_selection_rect (0, 255, 0) false)
                   (QPoint.mk 395 295)))
           [QPoint.mk (-5000) (-5000); QPoint.mk 9000 9000]
           eq_refl Hinv).
Defined.

(** One drag step: the size is kept, the position is never negative, and
    it is at most [screen - size] as soon as the box is no larger than the
    screen; a box larger than the screen is held at 0. *)
Lemma drag_step_position (sw sh : Z) (b : DraggableResizableBox)
  (pos : QPoint.t) :
  mode_of b = Dragging ->
  let b' := fst (mouse_move_event sw sh b pos) in
  QRect.width (rect b') = QRect.width (rect b) /\
  QRect.height (rect b') = QRect.height (rect b) /\
  0 <= QRect.x (rect b') /\ 0 <= QRect.y (rect b') /\
  (QRect.width (rect b) <= sw -> QRect.x (rect b') <= sw - QRect.width (rect b')) /\
  (QRect.height (rect b) <= sh -> QRect.y (rect b') <= sh - QRect.height (rect b')) /\
  (sw < QRect.width (rect b) -> QRect.x (rect b') = 0) /\
  (sh < QRect.height (rect b) -> QRect.y (rect b') = 0).
Proof.
  intros Hm. apply mode_of_Dragging in Hm. cbv zeta.
  rewrite (move_dragging sw sh b pos Hm).
  unfold fst, with_rect; cbn [rect].
  rewrite moveTo_width, moveTo_height, moveTo_x, moveTo_y.
  lia.
Qed.

(** C3, amended. On a dragging box that is no wider and no taller than the
    screen, after every move event of any sequence
    [0 <= x <= screen_width - width] and [0 <= y <= screen_height - height];
    and a box at (150,150) dragged by (-400,-400) on a 1920x1080 screen ends
    at (0,0). *)
Theorem drag_keeps_box_on_screen (sw sh : Z)
  (b : DraggableResizableBox) (events : list QPoint.t)
  (Hmode : mode_of b = Dragging)
  (Hwidth : QRect.width (rect b) <= sw)
  (Hheight : QRect.height (rect b) <= sh) :
  Forall (fun b' =>
            0 <= QRect.x (rect b') <= sw - QRect.width (rect b') /\
            0 <= QRect.y (rect b') <= sh - QRect.height (rect b'))
         (move_states sw sh b events) /\
  (forall (w h : Z) (anchor : QPoint.t) (c : DraggableResizableBox),
      rect c = QRect.make 150 150 w h ->
      mode_of c = Dragging ->
      drag_start c = anchor ->
      let c' := fst (mouse_move_event 1920 1080 c
                       (QPoint.mk (QPoint.x anchor - 400) (QPoint.y anchor - 400))) in
      QRect.x (rect c') = 0 /\ QRect.y (rect c') = 0).
Proof.
  split.
  - apply (move_states_invariant sw sh Dragging
             (fun b' => QRect.width (rect b') <= sw /\
                        QRect.height (rect b') <= sh));
      [| exact Hmode | split; assumption ].
    intros b0 pos Hm [Hw Hh].
    pose proof (drag_step_position sw sh b0 pos Hm) as Hpos.
    cbv zeta in Hpos. destruct Hpos as (Hfw & Hfh & Hpos).
    rewrite Hfw, Hfh in *. lia.
  - intros w h anchor c Hrect Hm Hanchor. cbv zeta.
    apply mode_of_Dragging in Hm.
    rewrite (move_dragging 1920 1080 c _ Hm).
    unfold fst, with_rect; cbn [rect].
    rewrite moveTo_x, moveTo_y, Hrect, Hanchor.
    unfold QRect.x, QRect.y, QRect.width, QRect.height, QRect.make, QPoint.sub;
      cbn [QRect.x1 QRect.y1 QRect.x2 QRect.y2 QPoint.x QPoint.y].
    lia.
Qed.

Lemma drag_keeps_box_on_screen_witness :
  mode_of (fst (mouse_press_event
                  (new_box default_selection_rect (0, 255, 0) false)
                  (QPoint.mk 150 150))) = Dragging /\
  QRect.width default_selection_rect <= 1920 /\
  QRect.height default_selection_rect <= 1080 /\
  Forall (fun b' =>
            0 <= QRect.x (rect b') <= 1920 - QRect.width (rect b') /\
            0 <= QRect.y (rect b') <= 1080 - QRect.height (rect b'))
         (move_states 1920 1080
            (fst (mouse_press_event
                    (new_box default_selection_rect (0, 255, 0) false)
                    (QPoint.mk 150 150)))
            [QPoint.mk (-250) (-250); QPoint.mk 9000 9000]).
Proof.
  assert (Hw : QRect.width default_selection_rect <= 1920) by (vm_compute; discriminate).
  assert (Hh : QRect.height default_selection_rect <= 1080) by (vm_compute; discriminate).
  split; [reflexivity|]. split; [exact Hw|]. split; [exact Hh|].
  apply (proj1 (drag_keeps_box_on_screen 1920 1080
           (fst (mouse_press_event
                   (new_box default_selection_rect (0, 255, 0) false)
                   (QPoint.mk 150 150)))
           [QPoint.mk (-250) (-250); QPoint.mk 9000 9000]
           eq_refl Hw Hh)).
Defined.

(** C3 as stated fails on a box wider than the screen: the stored geometry
    [0,0,2000,200] is loaded as it is on a 1920x1080 screen, the box is
    grabbed at (10,10) and moved to (20,10); [x] is then 0 while
    [screen_width - width] is -80. *)
Lemma drag_oversized_box_counterexample :
  exists o : Overlay,
    init_ui ascii_only 1920 1080
      [("selection_box_geometry"%string, VStr (lit "0,0,2000,200"))] = Ok o /\
    mode_of (selection_box (mousePressEvent o (QPoint.mk 10 10))) = Dragging /\
    QRect.x (rect (selection_box
                     (mouseMoveEvent (mousePressEvent o (QPoint.mk 10 10))
                        (QPoint.mk 20 10)))) = 0 /\
    QRect.width (rect (selection_box
                         (mouseMoveEvent (mousePressEvent o (QPoint.mk 10 10))
                            (QPoint.mk 20 10)))) = 2000 /\
    ~ (QRect.x (rect (selection_box
                        (mouseMoveEvent (mousePressEvent o (QPoint.mk 10 10))
                           (QPoint.mk 20 10))))
       <= 1920 - QRect.width (rect (selection_box
                        (mouseMoveEvent (mousePressEvent o (QPoint.mk 10 10))
                           (QPoint.mk 20 10))))).
Proof.
  eexists. split; [vm_compute; reflexivity|].
  split; [reflexivity|]. split; [reflexivity|]. split; [reflexivity|].
  vm_compute. intros H; apply H; reflexivity.
Qed.

(** ** Stored geometry *)

Lemma int_raises_ValueError (todecimal : N -> option N) (s : str) (e : exn) :
  int todecimal s = Raise e -> e = invalid_literal.
Proof.
  unfold int. destruct (transform todecimal s); [|congruence].
  destruct (split_sign _) as [sign body].
  destruct (scan_digits AtStart 0 body) as [[v rest]|]; [|congruence].
  destruct (skip_c_space rest); congruence.
Qed.

Lemma parse_geometry_Ok (todecimal : N -> option N) (s : str) (a b c d : Z) :
  parse_geometry todecimal s = Ok (a, b, c, d) <->
  exists f1 f2 f3 f4,
    split comma s = [f1; f2; f3; f4] /\
    int todecimal f1 = Ok a /\ int todecimal f2 = Ok b /\
    int todecimal f3 = Ok c /\ int todecimal f4 = Ok d.
Proof.
  unfold parse_geometry.
  destruct (split comma s) as [|f1 [|f2 [|f3 [|f4 more]]]].
  - split; [discriminate | intros (?&?&?&?&H&_); discriminate].
  - split; [destruct (int todecimal f1); discriminate
           | intros (?&?&?&?&H&_); discriminate].
  - split; [destruct (int todecimal f1); simpl; try discriminate;
            destruct (int todecimal f2); discriminate
           | intros (?&?&?&?&H&_); discriminate].
  - split; [destruct (int todecimal f1); simpl; try discriminate;
            destruct (int todecimal f2); simpl; try discriminate;
            destruct (int todecimal f3); discriminate
           | intros (?&?&?&?&H&_); discriminate].
  - split.
    + destruct (int todecimal f1) as [a'|] eqn:H1; simpl; try discriminate.
      destruct (int todecimal f2) as [b'|] eqn:H2; simpl; try discriminate.
      destruct (int todecimal f3) as [c'|] eqn:H3; simpl; try discriminate.
      destruct (int todecimal f4) as [d'|] eqn:H4; simpl; try discriminate.
      destruct more as [|f5 more].
      * intros H; injection H as -> -> -> ->.
        exists f1, f2, f3, f4. rewrite H1, H2, H3, H4. auto.
      * destruct (int todecimal f5); discriminate.
    + intros (g1&g2&g3&g4&Hs&H1&H2&H3&H4).
      injection Hs as E1 E2 E3 E4 E5; subst.
      rewrite H1, H2, H3, H4. reflexivity.
Qed.

Lemma parse_geometry_four_integers (todecimal : N -> option N) (s : str) :
  four_integers todecimal s <->
  exists a b c d, parse_geometry todecimal s = Ok (a, b, c, d).
Proof.
  split.
  - intros (f1&f2&f3&f4&a&b&c&d&H). exists a, b, c, d.
    apply parse_geometry_Ok. exists f1, f2, f3, f4. exact H.
  - intros (a&b&c&d&H). apply parse_geometry_Ok in H as (f1&f2&f3&f4&H).
    exists f1, f2, f3, f4, a, b, c, d. exact H.
Qed.

(** Whatever [parse_geometry] raises is a [ValueError]. *)
Lemma parse_geometry_raises_ValueError (todecimal : N -> option N) (s : str)
  (e : exn) :
  parse_geometry todecimal s = Raise e -> exists msg, e = ValueError msg.
Proof.
  unfold parse_geometry.
  destruct (split comma s) as [|f1 [|f2 [|f3 [|f4 more]]]];
    try (intros H; injection H as <-; eexists; reflexivity).
  all: destruct (int todecimal f1) eqn:H1; simpl;
    [| intros H; injection H as <-;
       rewrite (int_raises_ValueError _ _ _ H1); eexists; reflexivity ].
  all: try (intros H; injection H as <-; eexists; reflexivity).
  all: destruct (int todecimal f2) eqn:H2; simpl;
    [| intros H; injection H as <-;
       rewrite (int_raises_ValueError _ _ _ H2); eexists; reflexivity ].
  all: try (intros H; injection H as <-; eexists; reflexivity).
  all: destruct (int todecimal f3) eqn:H3; simpl;
    [| intros H; injection H as <-;
       rewrite (int_raises_ValueError _ _ _ H3); eexists; reflexivity ].
  all: try (intros H; injection H as <-; eexists; reflexivity).
  destruct (int todecimal f4) eqn:H4; simpl;
    [| intros H; injection H as <-;
       rewrite (int_raises_ValueError _ _ _ H4); eexists; reflexivity ].
  destruct more as [|f5 more]; [discriminate|].
  destruct (int todecimal f5) eqn:H5; simpl;
    intros H; injection H as <-;
    [| rewrite (int_raises_ValueError _ _ _ H5) ]; eexists; reflexivity.
Qed.




(** [int] on a few texts, as Python answers them. *)
Example int_examples :
  int ascii_only (lit " 12 ") = Ok 12 /\
  int ascii_only (lit "-7") = Ok (-7) /\
  int ascii_only (lit "1_000") = Ok 1000 /\
  int ascii_only (lit "007") = Ok 7 /\
  int ascii_only (lit "+ 1") = Raise invalid_literal /\
  int ascii_only (lit "1__0") = Raise invalid_literal /\
  int ascii_only (lit "1.0") = Raise invalid_literal /\
  int ascii_only (lit "") = Raise invalid_literal /\
  int ascii_only [160%N; 49%N; 8195%N] = Ok 1 /\
  int ascii_only [28%N; 49%N] = Raise invalid_literal.
Proof. repeat split. Qed.

Example parse_geometry_examples :
  parse_geometry ascii_only (lit "100,100,300,200") = Ok (100, 100, 300, 200) /\
  parse_geometry ascii_only (lit " 1 , 2,3 ,4 ") = Ok (1, 2, 3, 4) /\
  parse_geometry ascii_only (lit "1,2,3,4,5")
  = Raise (ValueError "too many values to unpack (expected 4)") /\
  parse_geometry ascii_only (lit "1,2,3,4,x") = Raise invalid_literal /\
  parse_geometry ascii_only (lit "") = Raise invalid_literal.
Proof. repeat split. Qed.

(** What [closeEvent] stores is read back by the next [init_ui]: here a
    selection box dragged to the top-left corner. *)
Example stored_geometry_is_read_back :
  value (settings (closeEvent
                     (mouseMoveEvent
                        (mousePressEvent (default_overlay 1920 1080)
                           (QPoint.mk 150 150))
                        (QPoint.mk (-250) (-250)))))
    "selection_box_geometry" = Some (VStr (lit "0,0,300,200")) /\
  load_geometry ascii_only (Some (VStr (lit "0,0,300,200")))
    default_selection_rect
  = Ok (QRect.make 0 0 300 200).
Proof. split; reflexivity. Qed.




(** ** The capture thread *)

Lemma lstrip_all_space (s : str) : forallb isspace s = true -> lstrip s = [].
Proof.
  induction s as [|c rest IH]; simpl; [reflexivity|].
  intros H; apply andb_true_iff in H as [Hc Hrest].
  rewrite Hc. apply IH; exact Hrest.
Qed.

(** A text of white space only (the empty text is one) is falsy once
    stripped. *)
Lemma strip_all_space (s : str) :
  forallb isspace s = true -> truthy (strip s) = false.
Proof.
  intros H. unfold strip, rstrip. rewrite (lstrip_all_space s H). reflexivity.
Qed.

Lemma lstrip_keeps (c : N) (s : str) :
  isspace c = false -> lstrip (c :: s) = c :: s.
Proof. intros H; simpl; rewrite H; reflexivity. Qed.

Lemma lstrip_spaces_or_head (s : str) :
  lstrip s = [] \/ exists c rest, lstrip s = c :: rest /\ isspace c = false.
Proof.
  induction s as [|c rest IH]; simpl; [left; reflexivity|].
  destruct (isspace c) eqn:Hc; [exact IH|].
  right. exists c, rest. auto.
Qed.

Lemma lstrip_nil_all_space (s : str) : lstrip s = [] -> forallb isspace s = true.
Proof.
  induction s as [|c rest IH]; simpl; [reflexivity|].
  destruct (isspace c); [exact IH | discriminate].
Qed.

Lemma lstrip_app_nonspace (s : str) (c : N) (t : str) :
  isspace c = false -> lstrip (s ++ c :: t) <> [].
Proof.
  intros Hc. induction s as [|d rest IH]; simpl.
  - rewrite Hc. discriminate.
  - destruct (isspace d); [exact IH | discriminate].
Qed.

(** [text.strip()] is falsy exactly for a text of white space only. *)
Lemma strip_falsy_iff (s : str) :
  truthy (strip s) = false <-> forallb isspace s = true.
Proof.
  split; [|apply strip_all_space].
  unfold strip, rstrip. intros H.
  destruct (lstrip_spaces_or_head s) as [Hnil|(c&rest&Hcons&Hc)].
  - apply lstrip_nil_all_space; exact Hnil.
  - exfalso. rewrite Hcons in H. simpl rev in H.
    pose proof (lstrip_app_nonspace (rev rest) c [] Hc) as Hne.
    destruct (lstrip (rev rest ++ [c])) as [|d u] eqn:Hl; [congruence|].
    simpl rev in H.
    destruct (rev u ++ [d]) eqn:Happ; [|discriminate].
    apply app_eq_nil in Happ as [_ Habs]. discriminate.
Qed.

Lemma post_nothing (o : Overlay) : post o [] = o.
Proof. destruct o; unfold post; simpl. rewrite app_nil_r. reflexivity. Qed.

Section PipelineProperties.

Variables ScreenShot Image : Type.

(** C5. An iteration whose recognised text is empty or white space only
    does not call the translation, queues no [update_translation], and
    leaves the overlay as it was, its translated text included, also once
    the event loop has run. *)
Theorem blank_text_skips_translation (c : Collaborators ScreenShot Image) (o : Overlay)
  (shot : ScreenShot) (img : Image) (text : str)
  (Hgrab : grab c (snapshot (selection_box o)) = Ok shot)
  (Himg : frombytes c shot = Ok img)
  (Hocr : image_to_string c img = Ok text)
  (Hblank : forallb isspace text = true) :
  iteration c o =
  ([Grab (snapshot (selection_box o)); FromBytes; ImageToString;
    Print (OcrText text); Sleep 200], o, AtLoopHead) /\
  (forall s, ~ In (Translate s) (fst (fst (iteration c o)))) /\
  invoked (fst (fst (iteration c o))) = [] /\
  translated_text (snd (fst (iteration c o))) = translated_text o /\
  (posted o = [] ->
   translated_text (deliver_posted (snd (fst (iteration c o))))
   = translated_text o).
Proof.
  assert (Hit : iteration c o =
    ([Grab (snapshot (selection_box o)); FromBytes; ImageToString;
      Print (OcrText text); Sleep 200], o, AtLoopHead)).
  { unfold iteration, try_body, call, bindM, emit.
    rewrite Hgrab, Himg, Hocr, (strip_all_space text Hblank).
    simpl. rewrite post_nothing. reflexivity. }
  rewrite Hit. simpl.
  split; [reflexivity|]. split.
  - intros s [H|[H|[H|[H|[H|[]]]]]]; discriminate.
  - split; [reflexivity|]. split; [reflexivity|].
    intros Hq. unfold deliver_posted. rewrite Hq. reflexivity.
Qed.

(** The iteration when [sct.grab] raises under [Exception]. *)
Lemma iteration_capture_error (c : Collaborators ScreenShot Image)
  (o : Overlay) (e : exn) :
  grab c (snapshot (selection_box o)) = Raise e ->
  is_Exception e = true ->
  iteration c o =
  ([Grab (snapshot (selection_box o)); Print (CaptureOrTranslateError e);
    Sleep 200], o, AtLoopHead).
Proof.
  intros Hgrab Hexc.
  unfold iteration, try_body, call, bindM. rewrite Hgrab, Hexc.
  simpl. rewrite post_nothing. reflexivity.
Qed.

(** C6. An iteration whose capture raises an exception (of a class under
    [Exception]) changes neither [running] nor the translated text: the
    overlay is as it was, the thread has printed the error, slept, and
    stands at the head of the loop, so that the next iteration runs as if
    this one had not been. *)
Theorem capture_error_is_survived (c : Collaborators ScreenShot Image) (o : Overlay) (e : exn)
  (Hgrab : grab c (snapshot (selection_box o)) = Raise e)
  (Hexc : is_Exception e = true) :
  iteration c o =
  ([Grab (snapshot (selection_box o)); Print (CaptureOrTranslateError e);
    Sleep 200], o, AtLoopHead) /\
  running (snd (fst (iteration c o))) = running o /\
  translated_text (snd (fst (iteration c o))) = translated_text o /\
  translated_text (deliver_posted (snd (fst (iteration c o))))
  = translated_text (deliver_posted o) /\
  (forall rest : list (Collaborators ScreenShot Image),
      running o = true ->
      capture_and_translate (c :: rest) o =
      ([Grab (snapshot (selection_box o)); Print (CaptureOrTranslateError e);
        Sleep 200] ++ fst (fst (capture_and_translate rest o)),
       snd (fst (capture_and_translate rest o)),
       snd (capture_and_translate rest o))).
Proof.
  pose proof (iteration_capture_error c o e Hgrab Hexc) as Hit.
  split; [exact Hit|]. rewrite Hit. simpl.
  split; [reflexivity|]. split; [reflexivity|]. split; [reflexivity|].
  intros rest Hrun. rewrite Hrun, Hit.
  destruct (capture_and_translate rest o) as [[t' o''] th]. reflexivity.
Qed.

(** The same when it is [Image.frombytes] that refuses the captured
    pixels. *)
Lemma image_error_is_survived (c : Collaborators ScreenShot Image) (o : Overlay)
  (shot : ScreenShot) (e : exn) :
  grab c (snapshot (selection_box o)) = Ok shot ->
  frombytes c shot = Raise e ->
  is_Exception e = true ->
  iteration c o =
  ([Grab (snapshot (selection_box o)); FromBytes;
    Print (CaptureOrTranslateError e); Sleep 200], o, AtLoopHead).
Proof.
  intros Hgrab Himg Hexc.
  unfold iteration, try_body, call, bindM. rewrite Hgrab, Himg, Hexc.
  simpl. rewrite post_nothing. reflexivity.
Qed.

(** However many iterations fail in the capture, the thread is still in
    its loop and the overlay untouched. *)
Lemma capture_errors_never_end_the_loop (cs : list (Collaborators ScreenShot Image)) (o : Overlay) :
  running o = true ->
  Forall (fun c => exists e, grab c (snapshot (selection_box o)) = Raise e /\
                             is_Exception e = true) cs ->
  snd (fst (capture_and_translate cs o)) = o /\
  snd (capture_and_translate cs o) = AtLoopHead.
Proof.
  intros Hrun Hall. induction Hall as [|c rest (e&Hgrab&Hexc) _ IH].
  - simpl. auto.
  - cbn [capture_and_translate].
    rewrite Hrun, (iteration_capture_error c o e Hgrab Hexc).
    destruct (capture_and_translate rest o) as [[t' o''] th].
    exact IH.
Qed.

(** C7. The selection box at its default rectangle, a capture whose
    recognised text is "Hello" and a translation that answers the two code
    points of the Chinese greeting: after the iteration and the delivery of
    the queued call the translated text is that answer, and [update] has
    been called exactly once. *)
Theorem hello_is_translated_and_drawn_once (c : Collaborators ScreenShot Image) (o : Overlay)
  (shot : ScreenShot) (img : Image)
  (Hrect : rect (selection_box o) = QRect.make 100 100 300 200)
  (Hidle : posted o = [])
  (Hgrab : grab c {| top := 100; left := 100; width := 300; height := 200 |}
           = Ok shot)
  (Himg : frombytes c shot = Ok img)
  (Hocr : image_to_string c img = Ok (lit "Hello"))
  (Htr : translate c (lit "Hello") = Ok [20320%N; 22909%N]) :
  fst (fst (iteration c o)) =
  [Grab {| top := 100; left := 100; width := 300; height := 200 |};
   FromBytes; ImageToString; Print (OcrText (lit "Hello"));
   Translate (lit "Hello"); Print (TranslationResult [20320%N; 22909%N]);
   InvokeUpdateTranslation [20320%N; 22909%N]; Sleep 200] /\
  snd (iteration c o) = AtLoopHead /\
  translated_text (deliver_posted (snd (fst (iteration c o))))
  = [20320%N; 22909%N] /\
  update_requests (deliver_posted (snd (fst (iteration c o))))
  = S (update_requests o) /\
  posted (deliver_posted (snd (fst (iteration c o)))) = [].
Proof.
  assert (Hsnap : snapshot (selection_box o)
                  = {| top := 100; left := 100; width := 300; height := 200 |}).
  { unfold snapshot. rewrite Hrect. reflexivity. }
  unfold iteration, try_body, call, bindM, emit.
  rewrite Hsnap, Hgrab, Himg, Hocr.
  change (truthy (strip (lit "Hello"))) with true. cbv iota.
  rewrite Htr. simpl.
  unfold deliver_posted, post; simpl. rewrite Hidle. simpl.
  repeat split.
Qed.

End PipelineProperties.

Lemma default_overlay_is_built (todecimal : N -> option N) (sw sh : Z) :
  Overlay_init todecimal sw sh [] = Ok (default_overlay sw sh).
Proof. reflexivity. Qed.

Lemma blank_text_skips_translation_witness :
  iteration (stub_collaborators (Ok tt) [32%N; 10%N] (Ok (lit "unused")))
    (default_overlay 1920 1080)
  = ([Grab {| top := 100; left := 100; width := 300; height := 200 |};
      FromBytes; ImageToString; Print (OcrText [32%N; 10%N]); Sleep 200],
     default_overlay 1920 1080, AtLoopHead).
Proof.
  apply (proj1 (blank_text_skips_translation unit unit
                  (stub_collaborators (Ok tt) [32%N; 10%N] (Ok (lit "unused")))
                  (default_overlay 1920 1080) tt tt [32%N; 10%N]
                  eq_refl eq_refl eq_refl eq_refl)).
Defined.

Lemma capture_error_is_survived_witness :
  running
    (snd (fst (iteration
                 (stub_collaborators
                    (Raise (ExternalError "ScreenShotError" "grab failed"))
                    (lit "Hello") (Ok [20320%N; 22909%N]))
                 (default_overlay 1920 1080))))
  = running (default_overlay 1920 1080).
Proof.
  apply (proj1 (proj2 (capture_error_is_survived unit unit
                  (stub_collaborators
                     (Raise (ExternalError "ScreenShotError" "grab failed"))
                     (lit "Hello") (Ok [20320%N; 22909%N]))
                  (default_overlay 1920 1080)
                  (ExternalError "ScreenShotError" "grab failed")
                  eq_refl eq_refl))).
Defined.

Lemma hello_is_translated_and_drawn_once_witness :
  translated_text
    (deliver_posted
       (snd (fst (iteration
                    (stub_collaborators (Ok tt) (lit "Hello")
                       (Ok [20320%N; 22909%N]))
                    (default_overlay 1920 1080)))))
  = [20320%N; 22909%N] /\
  update_requests
    (deliver_posted
       (snd (fst (iteration
                    (stub_collaborators (Ok tt) (lit "Hello")
                       (Ok [20320%N; 22909%N]))
                    (default_overlay 1920 1080)))))
  = 1%nat.
Proof.
  pose proof (hello_is_translated_and_drawn_once unit unit
                (stub_collaborators (Ok tt) (lit "Hello")
                   (Ok [20320%N; 22909%N]))
                (default_overlay 1920 1080) tt tt
                eq_refl eq_refl eq_refl eq_refl eq_refl eq_refl)
    as (_ & _ & Htext & Hupdates & _).
  split; [exact Htext | exact Hupdates].
Defined.

(** ** The snapshot under interleaving *)

Lemma build_monitor_app (s1 s2 : list tick) :
  forall o reads,
    build_monitor (s1 ++ s2) o reads =
    build_monitor s2 (fst (build_monitor s1 o reads))
      (snd (build_monitor s1 o reads)).
Proof.
  induction s1 as [|[|e] rest IH]; intros o reads; simpl;
    [reflexivity | apply IH | apply IH].
Qed.

Lemma build_monitor_ui_only (events : list ui_event) :
  forall o reads,
    build_monitor (List.map UiEvent events) o reads =
    (fold_left ui_step events o, reads).
Proof.
  induction events as [|e rest IH]; intros o reads; simpl;
    [reflexivity | apply IH].
Qed.

Lemma history_starts_with_current (sched : list tick) :
  forall o, In (rect (selection_box o)) (selection_history sched o).
Proof.
  induction sched as [|[|e] rest IH]; intros o; simpl; auto.
Qed.

(** Every value read is a field of a rectangle the box held at some point
    of the schedule; nothing says the four come from the same one. *)
Lemma build_monitor_reads (sched : list tick) :
  forall o reads,
  exists news,
    snd (build_monitor sched o reads) = reads ++ news /\
    List.length news = count_reads sched /\
    forall k v, nth_error news k = Some v ->
      exists r, In r (selection_history sched o) /\
                v = read_field r (List.length reads + k).
Proof.
  induction sched as [|[|e] rest IH]; intros o reads; simpl.
  - exists []. rewrite app_nil_r. repeat split.
    intros [|k] v H; discriminate.
  - destruct (IH o (reads ++
        [read_field (rect (selection_box o)) (List.length reads)]))
      as (news & Hsnd & Hlen & Hnth).
    exists (read_field (rect (selection_box o)) (List.length reads) :: news).
    split; [rewrite Hsnd, <- app_assoc; reflexivity|].
    split; [simpl; rewrite Hlen; reflexivity|].
    intros [|k] v H; simpl in H.
    + injection H as <-. exists (rect (selection_box o)).
      split; [apply history_starts_with_current|].
      rewrite Nat.add_0_r. reflexivity.
    + destruct (Hnth k v H) as (r & Hin & Hv). exists r.
      split; [exact Hin|]. rewrite Hv, length_app. simpl.
      f_equal. lia.
  - destruct (IH (ui_step o e) reads) as (news & Hsnd & Hlen & Hnth).
    exists news. split; [exact Hsnd|]. split; [exact Hlen|].
    intros k v H. destruct (Hnth k v H) as (r & Hin & Hv).
    exists r. split; [right; exact Hin | exact Hv].
Qed.

(** C9, amended. The iteration reads [top], [left], [width] and [height]
    by four separate calls and takes no lock.  When no handler of the UI
    thread runs between the first and the last of them, the dictionary is
    the selection rectangle of that moment.  Under any interleaving each of
    the four values is the field of a rectangle the box held during the
    reads, but not necessarily of the same rectangle. *)
Theorem snapshot_is_consistent_when_uninterrupted :
  (forall (before after : list ui_event) (o : Overlay),
      monitor_of_reads
        (snd (build_monitor
                (List.map UiEvent before
                 ++ [PipelineRead; PipelineRead; PipelineRead; PipelineRead]
                 ++ List.map UiEvent after) o []))
      = Some (snapshot (selection_box (fold_left ui_step before o)))) /\
  (forall (sched : list tick) (o : Overlay),
      count_reads sched = 4%nat ->
      exists m,
        monitor_of_reads (snd (build_monitor sched o [])) = Some m /\
        (exists r, In r (selection_history sched o) /\ top m = QRect.top r) /\
        (exists r, In r (selection_history sched o) /\ left m = QRect.left r) /\
        (exists r, In r (selection_history sched o) /\ width m = QRect.width r) /\
        (exists r, In r (selection_history sched o) /\ height m = QRect.height r)).
Proof.
  split.
  - intros before after o.
    rewrite build_monitor_app, build_monitor_ui_only.
    cbn [fst snd app build_monitor List.length].
    rewrite build_monitor_ui_only. reflexivity.
  - intros sched o Hfour.
    destruct (build_monitor_reads sched o []) as (news & Hsnd & Hlen & Hnth).
    rewrite Hfour in Hlen. simpl in Hsnd.
    destruct news as [|t [|l [|w [|h [|extra news]]]]]; try discriminate.
    rewrite Hsnd. eexists. split; [reflexivity|]. simpl.
    destruct (Hnth 0%nat t eq_refl) as (r0 & Hin0 & ->).
    destruct (Hnth 1%nat l eq_refl) as (r1 & Hin1 & ->).
    destruct (Hnth 2%nat w eq_refl) as (r2 & Hin2 & ->).
    destruct (Hnth 3%nat h eq_refl) as (r3 & Hin3 & ->).
    simpl.
    split; [exists r0; auto|]. split; [exists r1; auto|].
    split; [exists r2; auto | exists r3; auto].
Qed.

Lemma snapshot_is_consistent_when_uninterrupted_witness :
  count_reads
    [PipelineRead; UiEvent (Move (QPoint.mk 200 200)); PipelineRead;
     PipelineRead; PipelineRead] = 4%nat /\
  exists m,
    monitor_of_reads
      (snd (build_monitor
              [PipelineRead; UiEvent (Move (QPoint.mk 200 200)); PipelineRead;
               PipelineRead; PipelineRead]
              (mousePressEvent (default_overlay 1920 1080) (QPoint.mk 150 150))
              [])) = Some m /\
    exists r,
      In r (selection_history
              [PipelineRead; UiEvent (Move (QPoint.mk 200 200)); PipelineRead;
               PipelineRead; PipelineRead]
              (mousePressEvent (default_overlay 1920 1080) (QPoint.mk 150 150)))
      /\ top m = QRect.top r.
Proof.
  split; [reflexivity|].
  destruct (proj2 snapshot_is_consistent_when_uninterrupted
              [PipelineRead; UiEvent (Move (QPoint.mk 200 200)); PipelineRead;
               PipelineRead; PipelineRead]
              (mousePressEvent (default_overlay 1920 1080) (QPoint.mk 150 150))
              eq_refl) as (m & Hm & Htop & _).
  exists m. split; [exact Hm | exact Htop].
Defined.

(** C9 as stated fails: the selection box is being dragged from
    (100,100); [top] is read, the UI thread handles a move that takes the
    box to (150,150), and then [left], [width] and [height] are read.  The
    dictionary pairs the old [top] with the new [left]; the box never held
    such a rectangle. *)
Lemma torn_read_counterexample :
  monitor_of_reads
    (snd (build_monitor
            [PipelineRead; UiEvent (Move (QPoint.mk 200 200)); PipelineRead;
             PipelineRead; PipelineRead]
            (mousePressEvent (default_overlay 1920 1080) (QPoint.mk 150 150))
            []))
  = Some {| top := 100; left := 150; width := 300; height := 200 |} /\
  List.map rect_monitor
    (selection_history
       [PipelineRead; UiEvent (Move (QPoint.mk 200 200)); PipelineRead;
        PipelineRead; PipelineRead]
       (mousePressEvent (default_overlay 1920 1080) (QPoint.mk 150 150)))
  = [ {| top := 100; left := 100; width := 300; height := 200 |};
      {| top := 150; left := 150; width := 300; height := 200 |} ] /\
  ~ In {| top := 100; left := 150; width := 300; height := 200 |}
       (List.map rect_monitor
          (selection_history
             [PipelineRead; UiEvent (Move (QPoint.mk 200 200)); PipelineRead;
              PipelineRead; PipelineRead]
             (mousePressEvent (default_overlay 1920 1080) (QPoint.mk 150 150)))).
Proof.
  split; [reflexivity|]. split; [reflexivity|].
  vm_compute. intros [H|[H|[]]]; discriminate.
Qed.

(** * Further properties *)

(** ** What [closeEvent] writes, [init_ui] reads *)

Lemma uint_acc_pos (d : Decimal.uint) :
  forall acc : positive, uint_acc d (Z.pos acc) = Z.pos (Pos.of_uint_acc d acc).
Proof.
  induction d; intros acc; cbn [uint_acc Pos.of_uint_acc]; try reflexivity.
  all: rewrite <- IHd; f_equal; lia.
Qed.

Lemma uint_acc_zero (d : Decimal.uint) : uint_acc d 0 = Z.of_N (Pos.of_uint d).
Proof.
  induction d; cbn [uint_acc Pos.of_uint]; try reflexivity; try exact IHd.
  all: apply (uint_acc_pos d).
Qed.

Lemma lit_String (a : ascii) (s : string) :
  lit (String a s) = N_of_ascii a :: lit s.
Proof. reflexivity. Qed.

Lemma lit_append (s t : string) : lit (s ++ t) = (lit s ++ lit t)%list.
Proof.
  induction s as [|a s IH]; simpl; [reflexivity|].
  rewrite !lit_String, IH. reflexivity.
Qed.

Lemma scan_digit_step (st : scan_state) (acc : Z) (c : N) (k : Z) (rest : str) :
  digit_of c = Some k ->
  scan_digits st acc (c :: rest) = scan_digits AfterDigit (10 * acc + k) rest.
Proof. intros H; cbn [scan_digits]; rewrite H; reflexivity. Qed.

(** The digits an f-string writes are scanned back to their value. *)
Lemma scan_digits_uint (d : Decimal.uint) :
  forall acc,
    scan_digits AfterDigit acc (lit (NilEmpty.string_of_uint d))
    = Some (uint_acc d acc, []).
Proof.
  induction d; intros acc; cbn [NilEmpty.string_of_uint uint_acc];
    [reflexivity
    | rewrite lit_String; erewrite scan_digit_step by reflexivity;
      apply IHd ..].
Qed.

Lemma scan_digits_uint_start (d : Decimal.uint) (acc : Z) :
  d <> Decimal.Nil ->
  scan_digits AtStart acc (lit (NilEmpty.string_of_uint d))
  = Some (uint_acc d acc, []).
Proof.
  destruct d; intros Hd; [congruence | ..];
    cbn [NilEmpty.string_of_uint uint_acc]; rewrite lit_String;
    erewrite scan_digit_step by reflexivity;
    apply scan_digits_uint.
Qed.

Lemma transform_uint (todecimal : N -> option N) (d : Decimal.uint) :
  transform todecimal (lit (NilEmpty.string_of_uint d))
  = Some (lit (NilEmpty.string_of_uint d)).
Proof.
  induction d; cbn [NilEmpty.string_of_uint];
    [reflexivity
    | rewrite lit_String; cbn [transform];
      change (to_ascii todecimal (N_of_ascii ?a)) with (Some (N_of_ascii a));
      rewrite IHd; reflexivity ..].
Qed.

Lemma comma_free_uint (d : Decimal.uint) :
  comma_free (lit (NilEmpty.string_of_uint d)).
Proof.
  unfold comma_free.
  induction d; simpl NilEmpty.string_of_uint;
    [constructor | rewrite lit_String; constructor;
                   [vm_compute; discriminate | exact IHd] ..].
Qed.

Lemma head_uint (d : Decimal.uint) :
  d <> Decimal.Nil ->
  exists c rest,
    lit (NilEmpty.string_of_uint d) = c :: rest /\
    c_isspace c = false /\ (c =? 43)%N = false /\ (c =? 45)%N = false.
Proof.
  destruct d; intros Hd; [congruence | ..];
    simpl NilEmpty.string_of_uint; rewrite lit_String;
    eexists; eexists; repeat split.
Qed.

Lemma int_of_uint (todecimal : N -> option N) (d : Decimal.uint) :
  d <> Decimal.Nil ->
  int todecimal (lit (NilEmpty.string_of_uint d)) = Ok (uint_acc d 0).
Proof.
  intros Hd. unfold int. rewrite transform_uint.
  destruct (head_uint d Hd) as (c & rest & Hlit & Hsp & Hplus & Hminus).
  pose proof (scan_digits_uint_start d 0 Hd) as Hscan.
  rewrite Hlit in *. cbn [skip_c_space]. rewrite Hsp.
  unfold split_sign. rewrite Hplus, Hminus, Hscan. cbn [skip_c_space].
  f_equal; lia.
Qed.

Lemma int_of_minus_uint (todecimal : N -> option N) (d : Decimal.uint) :
  d <> Decimal.Nil ->
  int todecimal (45%N :: lit (NilEmpty.string_of_uint d))
  = Ok (- uint_acc d 0).
Proof.
  intros Hd. unfold int. cbn [transform].
  change (to_ascii todecimal 45%N) with (Some 45%N).
  rewrite transform_uint. cbn [skip_c_space].
  change (c_isspace 45%N) with false. cbv beta iota.
  unfold split_sign.
  change ((45 =? 43)%N) with false. change ((45 =? 45)%N) with true.
  cbv beta iota.
  rewrite (scan_digits_uint_start d 0 Hd). cbn [skip_c_space].
  f_equal; lia.
Qed.

(** [int] reads back every integer an f-string writes. *)
Lemma int_str_of_int (todecimal : N -> option N) (v : Z) :
  int todecimal (str_of_int v) = Ok v.
Proof.
  unfold str_of_int. destruct v as [|p|p]; [reflexivity | |].
  - simpl Z.to_int. unfold NilZero.string_of_int, NilZero.string_of_uint.
    pose proof (DecimalPos.Unsigned.to_uint_nonnil p) as Hnn.
    destruct (Pos.to_uint p) eqn:Hp; [congruence | ..];
      rewrite <- Hp in *;
      rewrite (int_of_uint todecimal _ Hnn), uint_acc_zero,
        DecimalPos.Unsigned.of_to; reflexivity.
  - simpl Z.to_int. unfold NilZero.string_of_int, NilZero.string_of_uint.
    pose proof (DecimalPos.Unsigned.to_uint_nonnil p) as Hnn.
    destruct (Pos.to_uint p) eqn:Hp; [congruence | ..];
      rewrite <- Hp in *;
      rewrite lit_String;
      change (N_of_ascii "-") with 45%N;
      rewrite (int_of_minus_uint todecimal _ Hnn), uint_acc_zero,
        DecimalPos.Unsigned.of_to; reflexivity.
Qed.

Lemma comma_free_str_of_int (v : Z) : comma_free (str_of_int v).
Proof.
  unfold str_of_int. destruct v as [|p|p].
  - repeat constructor; vm_compute; discriminate.
  - simpl Z.to_int. unfold NilZero.string_of_int, NilZero.string_of_uint.
    destruct (Pos.to_uint p) eqn:Hp;
      [repeat constructor; vm_compute; discriminate
      | rewrite <- Hp; apply comma_free_uint ..].
  - simpl Z.to_int. unfold NilZero.string_of_int, NilZero.string_of_uint.
    destruct (Pos.to_uint p) eqn:Hp;
      rewrite lit_String; constructor; try (vm_compute; discriminate);
      [repeat constructor; vm_compute; discriminate
      | rewrite <- Hp; apply comma_free_uint ..].
Qed.

Lemma split_comma_free (s : str) : comma_free s -> split comma s = [s].
Proof.
  induction 1 as [|c rest Hc _ IH]; simpl; [reflexivity|].
  apply N.eqb_neq in Hc. rewrite Hc, IH. reflexivity.
Qed.

Lemma split_field (s rest : str) :
  comma_free s ->
  split comma (s ++ comma :: rest) = s :: split comma rest.
Proof.
  induction 1 as [|c s' Hc _ IH]; simpl.
  - reflexivity.
  - apply N.eqb_neq in Hc. rewrite Hc, IH. reflexivity.
Qed.

Lemma split_geometry_text (r : QRect.t) :
  split comma (geometry_text r)
  = [str_of_int (QRect.left r); str_of_int (QRect.top r);
     str_of_int (QRect.width r); str_of_int (QRect.height r)].
Proof.
  unfold geometry_text. cbn [app].
  rewrite !split_field by apply comma_free_str_of_int.
  rewrite split_comma_free by apply comma_free_str_of_int.
  reflexivity.
Qed.

Lemma parse_geometry_text (todecimal : N -> option N) (r : QRect.t) :
  parse_geometry todecimal (geometry_text r)
  = Ok (QRect.left r, QRect.top r, QRect.width r, QRect.height r).
Proof.
  unfold parse_geometry. rewrite split_geometry_text.
  rewrite !int_str_of_int. reflexivity.
Qed.

(** X1. The text [closeEvent] stores for a rectangle is parsed back by
    [init_ui] to the four integers it was written from, whatever they are
    (negative ones included), and it is a text of four integers. *)
Theorem stored_text_parses_back (todecimal : N -> option N) (r : QRect.t) :
  parse_geometry todecimal (geometry_text r)
  = Ok (QRect.left r, QRect.top r, QRect.width r, QRect.height r) /\
  four_integers todecimal (geometry_text r) /\
  QRect.make (QRect.left r) (QRect.top r) (QRect.width r) (QRect.height r) = r.
Proof.
  split; [apply parse_geometry_text|]. split.
  - apply parse_geometry_four_integers. do 4 eexists.
    apply parse_geometry_text.
  - destruct r as [a b c d].
    unfold QRect.make, QRect.left, QRect.top, QRect.width, QRect.height.
    cbn [QRect.x1 QRect.y1 QRect.x2 QRect.y2]. f_equal; lia.
Qed.

Lemma make_of_fields (r : QRect.t) :
  QRect.make (QRect.left r) (QRect.top r) (QRect.width r) (QRect.height r) = r.
Proof.
  destruct r as [a b c d].
  unfold QRect.make, QRect.left, QRect.top, QRect.width, QRect.height.
  cbn [QRect.x1 QRect.y1 QRect.x2 QRect.y2]. f_equal; lia.
Qed.

Lemma load_geometry_text (todecimal : N -> option N) (r default : QRect.t) :
  rect_in_int_range r = true ->
  load_geometry todecimal (Some (VStr (geometry_text r))) default = Ok r.
Proof.
  intros Hrange. unfold load_geometry. rewrite parse_geometry_text.
  unfold QRect_of_ints. unfold rect_in_int_range in Hrange. rewrite Hrange.
  rewrite make_of_fields. reflexivity.
Qed.

Lemma value_setValue_same (s : QSettings) (key : string) (v : QVariant) :
  value (setValue s key v) key = Some v.
Proof.
  induction s as [|[k old] rest IH]; simpl.
  - rewrite String.eqb_refl. reflexivity.
  - destruct (String.eqb k key) eqn:Hk; simpl; rewrite Hk; [reflexivity|exact IH].
Qed.

Lemma value_setValue_other (s : QSettings) (key key' : string)
  (v : QVariant) :
  key <> key' ->
  value (setValue s key v) key' = value s key'.
Proof.
  intros Hne. induction s as [|[k old] rest IH]; simpl.
  - apply String.eqb_neq in Hne. rewrite Hne. reflexivity.
  - destruct (String.eqb k key) eqn:Hk; simpl.
    + apply String.eqb_eq in Hk; subst k.
      apply String.eqb_neq in Hne. rewrite Hne. reflexivity.
    + destruct (String.eqb k key'); [reflexivity | exact IH].
Qed.

(** X2. Closing and starting again restores the boxes: whatever was stored
    before, [init_ui] run on the settings [closeEvent] leaves builds both
    boxes with the rectangles they had at closing, idle, provided the
    integers of the two rectangles fit a C [int]. *)
Theorem restart_restores_rectangles (todecimal : N -> option N)
  (sw sh : Z) (o : Overlay)
  (Hsel : rect_in_int_range (rect (selection_box o)) = true)
  (Htr : rect_in_int_range (rect (translation_box o)) = true) :
  exists o',
    init_ui todecimal sw sh (settings (closeEvent o)) = Ok o' /\
    rect (selection_box o') = rect (selection_box o) /\
    rect (translation_box o') = rect (translation_box o) /\
    mode_of (selection_box o') = Idle /\
    mode_of (translation_box o') = Idle /\
    running (closeEvent o) = false.
Proof.
  unfold init_ui. cbn [closeEvent settings].
  rewrite value_setValue_other by discriminate.
  rewrite !value_setValue_same.
  rewrite (load_geometry_text todecimal _ _ Hsel).
  rewrite (load_geometry_text todecimal _ _ Htr).
  cbn [bind]. eexists. split; [reflexivity|].
  repeat split.
Qed.

Lemma restart_restores_rectangles_witness :
  exists o',
    init_ui ascii_only 1920 1080
      (settings (closeEvent
                   (mouseMoveEvent
                      (mousePressEvent (default_overlay 1920 1080)
                         (QPoint.mk 150 150))
                      (QPoint.mk 400 500)))) = Ok o' /\
    rect (selection_box o') = QRect.make 350 450 300 200.
Proof.
  destruct (restart_restores_rectangles ascii_only 1920 1080
              (mouseMoveEvent
                 (mousePressEvent (default_overlay 1920 1080)
                    (QPoint.mk 150 150))
                 (QPoint.mk 400 500))
              eq_refl eq_refl) as (o' & Hinit & Hsel & _).
  exists o'. split; [exact Hinit | exact Hsel].
Defined.

(** ** One box: how a move follows the pointer *)

(** X3. A move event that repeats the pointer position of the one before it
    changes nothing, in any mode and on any rectangle: the clamped position
    or size it finds is the one it computes again. *)
Theorem repeated_move_is_idle (sw sh : Z) (b : DraggableResizableBox)
  (pos : QPoint.t) :
  fst (mouse_move_event sw sh (fst (mouse_move_event sw sh b pos)) pos)
  = fst (mouse_move_event sw sh b pos).
Proof.
  destruct (dragging b) eqn:Hd; [|destruct (resizing b) eqn:Hr].
  - rewrite (move_dragging sw sh b pos Hd). cbn [fst].
    rewrite move_dragging by exact Hd. cbn [fst].
    unfold with_rect. cbn [rect color is_translation_box dragging resizing
                             resize_margin drag_start font].
    f_equal.
    rewrite moveTo_width, moveTo_height, moveTo_x, moveTo_y.
    destruct (rect b) as [a1 b1 a2 b2].
    unfold QRect.moveTo, QRect.x, QRect.y, QRect.width, QRect.height.
    cbn [QRect.x1 QRect.y1 QRect.x2 QRect.y2]. f_equal; lia.
  - rewrite (move_resizing sw sh b pos Hd Hr). cbn [fst].
    rewrite move_resizing by assumption. cbn [fst].
    unfold with_rect. cbn [rect color is_translation_box dragging resizing
                             resize_margin drag_start font].
    f_equal.
    rewrite resize_width, resize_height, resize_x, resize_y.
    destruct (rect b) as [a1 b1 a2 b2].
    unfold QRect.setHeight, QRect.setWidth, QRect.x, QRect.y, QRect.width,
      QRect.height.
    cbn [QRect.x1 QRect.y1 QRect.x2 QRect.y2]. f_equal; lia.
  - rewrite (move_idle sw sh b pos Hd Hr). cbn [fst].
    rewrite (move_idle sw sh b pos Hd Hr). reflexivity.
Qed.

(** X4. One resize step, from any rectangle (inside the invariant or not):
    the right and bottom edges end inside the screen; the floors of 100 and
    50 hold as soon as the screen leaves that much room right of [x] and
    below [y], and when it does not the size is exactly the room left; and
    a size between floor and cap is the old size plus the pointer delta. *)
Theorem resize_step_cap_and_floor (sw sh : Z) (b : DraggableResizableBox)
  (pos : QPoint.t) (Hmode : mode_of b = Resizing) :
  let dx := QPoint.x pos - QPoint.x (drag_start b) in
  let dy := QPoint.y pos - QPoint.y (drag_start b) in
  let r := rect b in
  let r' := rect (fst (mouse_move_event sw sh b pos)) in
  QRect.x r' + QRect.width r' <= sw /\
  QRect.y r' + QRect.height r' <= sh /\
  (100 <= sw - QRect.x r -> 100 <= QRect.width r') /\
  (50 <= sh - QRect.y r -> 50 <= QRect.height r') /\
  (sw - QRect.x r < 100 -> QRect.width r' = sw - QRect.x r) /\
  (sh - QRect.y r < 50 -> QRect.height r' = sh - QRect.y r) /\
  (100 <= QRect.width r + dx <= sw - QRect.x r ->
   QRect.width r' = QRect.width r + dx) /\
  (50 <= QRect.height r + dy <= sh - QRect.y r ->
   QRect.height r' = QRect.height r + dy) /\
  drag_start (fst (mouse_move_event sw sh b pos)) = pos.
Proof.
  apply mode_of_Resizing in Hmode as [Hd Hr]. cbv zeta.
  rewrite (move_resizing sw sh b pos Hd Hr).
  unfold fst, with_rect; cbn [rect drag_start].
  rewrite resize_width, resize_height, resize_x, resize_y.
  repeat split; lia.
Qed.

Lemma resize_step_cap_and_floor_witness :
  mode_of (fst (mouse_press_event
                  (new_box (QRect.make 1850 100 300 200) (0, 255, 0) false)
                  (QPoint.mk 2145 295))) = Resizing /\
  QRect.width
    (rect (fst (mouse_move_event 1920 1080
                  (fst (mouse_press_event
                          (new_box (QRect.make 1850 100 300 200) (0, 255, 0) false)
                          (QPoint.mk 2145 295)))
                  (QPoint.mk 2145 295)))) = 70.
Proof.
  split; [reflexivity|].
  apply (proj1 (proj2 (proj2 (proj2 (proj2
           (resize_step_cap_and_floor 1920 1080
              (fst (mouse_press_event
                      (new_box (QRect.make 1850 100 300 200) (0, 255, 0) false)
                      (QPoint.mk 2145 295)))
              (QPoint.mk 2145 295) eq_refl)))))).
  vm_compute. reflexivity.
Defined.

(** X5. While the pointer keeps the dragged box inside the screen, the box
    follows it exactly: after any sequence of move events the position is
    the starting position plus the total displacement of the pointer since
    the press, and the size is the starting size. *)
Theorem drag_follows_pointer (sw sh : Z) (b : DraggableResizableBox)
  (events : list QPoint.t) (last : QPoint.t)
  (Hmode : mode_of b = Dragging)
  (Hinside :
     Forall (fun pos =>
               0 <= QRect.x (rect b) + (QPoint.x pos - QPoint.x (drag_start b))
               <= sw - QRect.width (rect b) /\
               0 <= QRect.y (rect b) + (QPoint.y pos - QPoint.y (drag_start b))
               <= sh - QRect.height (rect b))
            (events ++ [last])) :
  QRect.x (rect (moves sw sh b (events ++ [last])))
  = QRect.x (rect b) + (QPoint.x last - QPoint.x (drag_start b)) /\
  QRect.y (rect (moves sw sh b (events ++ [last])))
  = QRect.y (rect b) + (QPoint.y last - QPoint.y (drag_start b)) /\
  QRect.width (rect (moves sw sh b (events ++ [last]))) = QRect.width (rect b) /\
  QRect.height (rect (moves sw sh b (events ++ [last]))) = QRect.height (rect b).
Proof.
  revert b Hmode Hinside.
  induction events as [|pos rest IH]; intros b Hmode Hinside.
  - cbn [app] in *. unfold moves; cbn [fold_left].
    apply Forall_inv in Hinside. cbv beta in Hinside.
    apply mode_of_Dragging in Hmode.
    rewrite (move_dragging sw sh b last Hmode).
    unfold fst, with_rect; cbn [rect].
    rewrite moveTo_width, moveTo_height, moveTo_x, moveTo_y. lia.
  - cbn [app] in *.
    change (moves sw sh b (pos :: rest ++ [last]))
      with (moves sw sh (fst (mouse_move_event sw sh b pos)) (rest ++ [last])).
    pose proof (Forall_inv Hinside) as Hpos.
    pose proof (Forall_inv_tail Hinside) as Hrest.
    assert (Hstep :
      mode_of (fst (mouse_move_event sw sh b pos)) = Dragging /\
      drag_start (fst (mouse_move_event sw sh b pos)) = pos /\
      QRect.x (rect (fst (mouse_move_event sw sh b pos)))
      = QRect.x (rect b) + (QPoint.x pos - QPoint.x (drag_start b)) /\
      QRect.y (rect (fst (mouse_move_event sw sh b pos)))
      = QRect.y (rect b) + (QPoint.y pos - QPoint.y (drag_start b)) /\
      QRect.width (rect (fst (mouse_move_event sw sh b pos)))
      = QRect.width (rect b) /\
      QRect.height (rect (fst (mouse_move_event sw sh b pos)))
      = QRect.height (rect b)).
    { split; [rewrite move_keeps_mode; exact Hmode|].
      apply mode_of_Dragging in Hmode.
      rewrite (move_dragging sw sh b pos Hmode).
      unfold fst, with_rect; cbn [rect drag_start].
      rewrite moveTo_width, moveTo_height, moveTo_x, moveTo_y.
      cbv beta in Hpos. split; [reflexivity | lia]. }
    destruct Hstep as (Hm' & Ha' & Hx' & Hy' & Hw' & Hh').
    specialize (IH (fst (mouse_move_event sw sh b pos)) Hm').
    rewrite Ha', Hx', Hy', Hw', Hh' in IH.
    assert (Hinside' :
      Forall (fun q =>
                0 <= QRect.x (rect b) + (QPoint.x pos - QPoint.x (drag_start b))
                     + (QPoint.x q - QPoint.x pos)
                <= sw - QRect.width (rect b) /\
                0 <= QRect.y (rect b) + (QPoint.y pos - QPoint.y (drag_start b))
                     + (QPoint.y q - QPoint.y pos)
                <= sh - QRect.height (rect b))
             (rest ++ [last])).
    { eapply Forall_impl; [|exact Hrest]. intros q Hq; cbv beta in *. lia. }
    specialize (IH Hinside'). lia.
Qed.

Lemma drag_follows_pointer_witness :
  QRect.x
    (rect (moves 1920 1080
             (fst (mouse_press_event
                     (new_box default_selection_rect (0, 255, 0) false)
                     (QPoint.mk 150 150)))
             ([QPoint.mk 900 700; QPoint.mk 60 80] ++ [QPoint.mk 500 400])))
  = 100 + (500 - 150).
Proof.
  apply (proj1 (drag_follows_pointer 1920 1080
           (fst (mouse_press_event
                   (new_box default_selection_rect (0, 255, 0) false)
                   (QPoint.mk 150 150)))
           [QPoint.mk 900 700; QPoint.mk 60 80] (QPoint.mk 500 400)
           eq_refl
           ltac:(repeat constructor; vm_compute; discriminate))).
Defined.

(** ** The overlay's pointer handlers *)

Lemma set_boxes_same (o : Overlay) :
  set_boxes o (selection_box o) (translation_box o) (update_requests o) = o.
Proof. destruct o; reflexivity. Qed.

Lemma press_keeps_rect (b : DraggableResizableBox) (pos : QPoint.t) :
  rect (fst (mouse_press_event b pos)) = rect b.
Proof.
  unfold mouse_press_event.
  destruct (QRect.contains (rect b) pos); [|reflexivity].
  destruct (in_resize_corner b pos); reflexivity.
Qed.

(** A press inside the rectangle always leaves the box in a mode other than
    idle. *)
Lemma press_inside_activates (b : DraggableResizableBox) (pos : QPoint.t) :
  contains_point b pos = true ->
  mode_of (fst (mouse_press_event b pos)) <> Idle.
Proof.
  unfold contains_point, mouse_press_event. intros ->.
  destruct (in_resize_corner b pos); unfold mode_of; cbn [fst dragging resizing].
  - destruct (dragging b); discriminate.
  - discriminate.
Qed.

Lemma active_iff (b : DraggableResizableBox) :
  dragging b || resizing b = true <-> mode_of b <> Idle.
Proof.
  unfold mode_of. destruct (dragging b), (resizing b); cbn;
    split; intros H; try discriminate; try reflexivity; congruence.
Qed.

Lemma active_move_returns_true (sw sh : Z) (b : DraggableResizableBox)
  (pos : QPoint.t) :
  dragging b || resizing b = true ->
  snd (mouse_move_event sw sh b pos) = true.
Proof.
  unfold mouse_move_event. destruct (dragging b); [reflexivity|].
  destruct (resizing b); [reflexivity | discriminate].
Qed.

(** One move event keeps the invariant of the data model, whatever the
    flags of the box are. *)
Lemma move_keeps_rect_invariant (sw sh : Z) (b : DraggableResizableBox)
  (pos : QPoint.t) :
  rect_invariant sw sh (rect b) ->
  rect_invariant sw sh (rect (fst (mouse_move_event sw sh b pos))).
Proof.
  intros Hinv.
  destruct (dragging b) eqn:Hd; [|destruct (resizing b) eqn:Hr].
  - rewrite (move_dragging sw sh b pos Hd).
    unfold fst, with_rect; cbn [rect]. unfold rect_invariant in *.
    rewrite moveTo_width, moveTo_height, moveTo_x, moveTo_y. lia.
  - apply resize_step_invariant; [|exact Hinv].
    apply mode_of_Resizing; auto.
  - rewrite (move_idle sw sh b pos Hd Hr). exact Hinv.
Qed.

Lemma ui_step_screen (o : Overlay) (e : ui_event) :
  screen_width (ui_step o e) = screen_width o /\
  screen_height (ui_step o e) = screen_height o.
Proof.
  destruct e as [pos|pos|]; cbn [ui_step].
  - unfold mousePressEvent.
    destruct (contains_point (translation_box o) pos); [split; reflexivity|].
    destruct (contains_point (selection_box o) pos); split; reflexivity.
  - unfold mouseMoveEvent. cbv zeta.
    destruct (_ && _); [split; reflexivity|].
    destruct (_ && _); split; reflexivity.
  - split; reflexivity.
Qed.

Lemma ui_step_keeps_boxes_on_screen (o : Overlay) (e : ui_event) :
  boxes_on_screen o -> boxes_on_screen (ui_step o e).
Proof.
  unfold boxes_on_screen. intros [Hsel Htr].
  destruct (ui_step_screen o e) as [-> ->].
  destruct e as [pos|pos|]; cbn [ui_step].
  - unfold mousePressEvent.
    destruct (contains_point (translation_box o) pos);
      [cbn [set_boxes selection_box translation_box];
       rewrite press_keeps_rect; auto|].
    destruct (contains_point (selection_box o) pos);
      [cbn [set_boxes selection_box translation_box];
       rewrite press_keeps_rect; auto | auto].
  - pose proof (move_keeps_rect_invariant _ _ (selection_box o) pos Hsel).
    pose proof (move_keeps_rect_invariant _ _ (translation_box o) pos Htr).
    unfold mouseMoveEvent. cbv zeta.
    destruct (dragging (translation_box o) || resizing (translation_box o));
      destruct (dragging (selection_box o) || resizing (selection_box o));
      cbn [andb];
      repeat match goal with
             | |- context [if ?c then _ else _] => destruct c
             end;
      cbn [set_boxes selection_box translation_box]; auto.
  - cbn [mouseReleaseEvent set_boxes selection_box translation_box
           mouse_release_event rect]. auto.
Qed.

(** X6. Boxes that start inside the screen with at least the minimum size
    stay so under every sequence of pointer events, presses, moves and
    releases in any order (also when a second press has set both flags of a
    box): width >= 100, height >= 50, and the rectangle inside the
    screen, for both boxes. *)
Theorem pointer_events_keep_boxes_on_screen (events : list ui_event)
  (o : Overlay) (Hstart : boxes_on_screen o) :
  boxes_on_screen (fold_left ui_step events o).
Proof.
  revert o Hstart. induction events as [|e rest IH]; intros o Hstart.
  - exact Hstart.
  - cbn [fold_left]. apply IH. apply ui_step_keeps_boxes_on_screen. exact Hstart.
Qed.

Lemma default_boxes_on_screen (sw sh : Z) :
  720 <= sw -> 300 <= sh -> boxes_on_screen (default_overlay sw sh).
Proof.
  intros Hw Hh. unfold boxes_on_screen, rect_invariant, default_overlay.
  cbn [selection_box translation_box screen_width screen_height new_box rect].
  unfold default_selection_rect, default_translation_rect.
  pose proof (make_geometry 100 100 300 200) as (-> & -> & -> & ->).
  pose proof (make_geometry 420 100 300 200) as (-> & -> & -> & ->).
  lia.
Qed.

Lemma pointer_events_keep_boxes_on_screen_witness :
  boxes_on_screen
    (fold_left ui_step
       [Press (QPoint.mk 395 295); Press (QPoint.mk 150 150);
        Move (QPoint.mk 5000 (-3000)); Release; Move (QPoint.mk 0 0)]
       (default_overlay 1920 1080)).
Proof.
  apply (pointer_events_keep_boxes_on_screen
           [Press (QPoint.mk 395 295); Press (QPoint.mk 150 150);
            Move (QPoint.mk 5000 (-3000)); Release; Move (QPoint.mk 0 0)]
           (default_overlay 1920 1080)).
  apply default_boxes_on_screen; lia.
Defined.

(** X7. A pointer-down goes to one box at most, the translation box first:
    a point inside the translation box never touches the selection box,
    even where the two overlap; a point outside both leaves the overlay as
    it was; no rectangle moves and no repaint is asked for; and from an
    overlay whose boxes are both idle, at most one box leaves the idle
    mode. *)
Theorem press_goes_to_one_box (o : Overlay) (pos : QPoint.t) :
  (contains_point (translation_box o) pos = true ->
   selection_box (mousePressEvent o pos) = selection_box o /\
   mode_of (translation_box (mousePressEvent o pos)) <> Idle) /\
  (contains_point (translation_box o) pos = false ->
   translation_box (mousePressEvent o pos) = translation_box o) /\
  (contains_point (translation_box o) pos = false ->
   contains_point (selection_box o) pos = true ->
   mode_of (selection_box (mousePressEvent o pos)) <> Idle) /\
  (contains_point (translation_box o) pos = false ->
   contains_point (selection_box o) pos = false ->
   mousePressEvent o pos = o) /\
  rect (selection_box (mousePressEvent o pos)) = rect (selection_box o) /\
  rect (translation_box (mousePressEvent o pos)) = rect (translation_box o) /\
  update_requests (mousePressEvent o pos) = update_requests o /\
  (mode_of (selection_box o) = Idle -> mode_of (translation_box o) = Idle ->
   mode_of (selection_box (mousePressEvent o pos)) = Idle \/
   mode_of (translation_box (mousePressEvent o pos)) = Idle).
Proof.
  unfold mousePressEvent.
  destruct (contains_point (translation_box o) pos) eqn:Htr.
  - cbn [set_boxes selection_box translation_box update_requests].
    rewrite press_keeps_rect.
    repeat split; try discriminate; auto.
    apply press_inside_activates; exact Htr.
  - destruct (contains_point (selection_box o) pos) eqn:Hsel.
    + cbn [set_boxes selection_box translation_box update_requests].
      rewrite press_keeps_rect.
      repeat split; try discriminate; auto.
      intros _ _. apply press_inside_activates; exact Hsel.
    + repeat split; try discriminate; auto.
Qed.

Lemma press_goes_to_one_box_witness :
  contains_point (translation_box (default_overlay 1920 1080))
    (QPoint.mk 500 150) = true /\
  selection_box (mousePressEvent (default_overlay 1920 1080) (QPoint.mk 500 150))
  = selection_box (default_overlay 1920 1080).
Proof.
  split; [reflexivity|].
  apply (proj1 (press_goes_to_one_box (default_overlay 1920 1080)
                  (QPoint.mk 500 150))).
  reflexivity.
Defined.

Lemma release_idle_box (b : DraggableResizableBox) :
  mode_of b = Idle -> mouse_release_event b = b.
Proof.
  intros H. apply mode_of_Idle in H as [Hd Hr].
  destruct b; cbn in *; subst; reflexivity.
Qed.

Lemma release_gives_idle (b : DraggableResizableBox) :
  mode_of (mouse_release_event b) = Idle.
Proof. reflexivity. Qed.

Lemma move_with_translation_active (o : Overlay) (pos : QPoint.t) :
  dragging (translation_box o) || resizing (translation_box o) = true ->
  mouseMoveEvent o pos =
  set_boxes o (selection_box o)
    (fst (mouse_move_event (screen_width o) (screen_height o)
            (translation_box o) pos))
    (S (update_requests o)).
Proof.
  intros Hact. unfold mouseMoveEvent. cbv zeta.
  rewrite Hact, (active_move_returns_true _ _ _ pos Hact). reflexivity.
Qed.

Lemma move_with_translation_idle (o : Overlay) (pos : QPoint.t) :
  dragging (translation_box o) || resizing (translation_box o) = false ->
  mouseMoveEvent o pos =
  if dragging (selection_box o) || resizing (selection_box o) then
    set_boxes o
      (fst (mouse_move_event (screen_width o) (screen_height o)
              (selection_box o) pos))
      (translation_box o) (S (update_requests o))
  else o.
Proof.
  intros Hidle. unfold mouseMoveEvent. cbv zeta. rewrite Hidle. cbn [andb].
  destruct (dragging (selection_box o) || resizing (selection_box o)) eqn:Hsel.
  - rewrite (active_move_returns_true _ _ _ pos Hsel). reflexivity.
  - cbn [andb]. apply set_boxes_same.
Qed.

(** X8. A move event asks for a repaint exactly when a box is being
    manipulated, and then changes that box only, the translation box when
    both are; with both boxes idle it leaves the overlay as it was.  It
    never changes the mode of a box. *)
Theorem move_goes_to_the_active_box (o : Overlay) (pos : QPoint.t) :
  (mode_of (translation_box o) <> Idle ->
   selection_box (mouseMoveEvent o pos) = selection_box o /\
   translation_box (mouseMoveEvent o pos)
   = fst (mouse_move_event (screen_width o) (screen_height o)
            (translation_box o) pos) /\
   update_requests (mouseMoveEvent o pos) = S (update_requests o)) /\
  (mode_of (translation_box o) = Idle ->
   mode_of (selection_box o) <> Idle ->
   translation_box (mouseMoveEvent o pos) = translation_box o /\
   selection_box (mouseMoveEvent o pos)
   = fst (mouse_move_event (screen_width o) (screen_height o)
            (selection_box o) pos) /\
   update_requests (mouseMoveEvent o pos) = S (update_requests o)) /\
  (mode_of (translation_box o) = Idle ->
   mode_of (selection_box o) = Idle ->
   mouseMoveEvent o pos = o) /\
  mode_of (selection_box (mouseMoveEvent o pos)) = mode_of (selection_box o) /\
  mode_of (translation_box (mouseMoveEvent o pos)) = mode_of (translation_box o).
Proof.
  destruct (dragging (translation_box o) || resizing (translation_box o))
    eqn:Htr.
  - rewrite (move_with_translation_active o pos Htr).
    cbn [set_boxes selection_box translation_box update_requests].
    apply active_iff in Htr.
    repeat split; try congruence. apply move_keeps_mode.
  - rewrite (move_with_translation_idle o pos Htr).
    assert (Hidle : mode_of (translation_box o) = Idle).
    { destruct (mode_of (translation_box o)) eqn:Hm; [reflexivity | |];
        exfalso;
        assert (Hne : mode_of (translation_box o) <> Idle) by congruence;
        apply active_iff in Hne; congruence. }
    destruct (dragging (selection_box o) || resizing (selection_box o))
      eqn:Hsel.
    + cbn [set_boxes selection_box translation_box update_requests].
      apply active_iff in Hsel.
      repeat split; try congruence. apply move_keeps_mode.
    + assert (Hsidle : mode_of (selection_box o) = Idle).
      { destruct (mode_of (selection_box o)) eqn:Hm; [reflexivity | |];
          exfalso;
          assert (Hne : mode_of (selection_box o) <> Idle) by congruence;
          apply active_iff in Hne; congruence. }
      repeat split; congruence.
Qed.

Lemma move_goes_to_the_active_box_witness :
  mode_of (translation_box (default_overlay 1920 1080)) = Idle /\
  mode_of (selection_box (default_overlay 1920 1080)) = Idle /\
  mouseMoveEvent (default_overlay 1920 1080) (QPoint.mk 150 150)
  = default_overlay 1920 1080.
Proof.
  split; [reflexivity|]. split; [reflexivity|].
  apply (proj1 (proj2 (proj2 (move_goes_to_the_active_box
                                (default_overlay 1920 1080)
                                (QPoint.mk 150 150))))); reflexivity.
Defined.

Lemma moves_keep_selection (events : list QPoint.t) :
  forall o,
    dragging (translation_box o) || resizing (translation_box o) = true ->
    selection_box (fold_left mouseMoveEvent events o) = selection_box o.
Proof.
  induction events as [|pos rest IH]; intros o Hact; cbn [fold_left];
    [reflexivity|].
  rewrite IH.
  - rewrite (move_with_translation_active o pos Hact). reflexivity.
  - rewrite (move_with_translation_active o pos Hact).
    cbn [set_boxes translation_box].
    apply active_iff. rewrite move_keeps_mode. apply active_iff. exact Hact.
Qed.

Lemma moves_keep_idle_translation (events : list QPoint.t) :
  forall o,
    dragging (translation_box o) || resizing (translation_box o) = false ->
    translation_box (fold_left mouseMoveEvent events o) = translation_box o.
Proof.
  induction events as [|pos rest IH]; intros o Hidle; cbn [fold_left];
    [reflexivity|].
  assert (Hsame : translation_box (mouseMoveEvent o pos) = translation_box o).
  { rewrite (move_with_translation_idle o pos Hidle).
    destruct (dragging (selection_box o) || resizing (selection_box o));
      reflexivity. }
  rewrite IH; [exact Hsame | rewrite Hsame; exact Hidle].
Qed.

Lemma idle_not_active (b : DraggableResizableBox) :
  mode_of b = Idle -> dragging b || resizing b = false.
Proof. intros H. apply mode_of_Idle in H as [-> ->]. reflexivity. Qed.

(** X9. A whole gesture (press, any moves, release) on an overlay whose
    boxes are idle: when the press falls in the translation box the
    selection box comes out exactly as it was, when it falls elsewhere the
    translation box does; and both boxes are idle again at the end. *)
Theorem gesture_leaves_other_box (o : Overlay) (press : QPoint.t)
  (move_events : list QPoint.t)
  (Hsel : mode_of (selection_box o) = Idle)
  (Htr : mode_of (translation_box o) = Idle) :
  (contains_point (translation_box o) press = true ->
   selection_box (gesture o press move_events) = selection_box o) /\
  (contains_point (translation_box o) press = false ->
   translation_box (gesture o press move_events) = translation_box o) /\
  mode_of (selection_box (gesture o press move_events)) = Idle /\
  mode_of (translation_box (gesture o press move_events)) = Idle.
Proof.
  unfold gesture.
  cbn [mouseReleaseEvent set_boxes selection_box translation_box].
  split; [|split; [|split; apply release_gives_idle]].
  - intros Hin.
    assert (Hact : dragging (translation_box (mousePressEvent o press))
                   || resizing (translation_box (mousePressEvent o press))
                   = true).
    { apply active_iff. unfold mousePressEvent. rewrite Hin.
      cbn [set_boxes translation_box].
      apply press_inside_activates. exact Hin. }
    rewrite (moves_keep_selection move_events _ Hact).
    unfold mousePressEvent. rewrite Hin. cbn [set_boxes selection_box].
    apply release_idle_box. exact Hsel.
  - intros Hout.
    assert (Hsame : translation_box (mousePressEvent o press)
                    = translation_box o).
    { unfold mousePressEvent. rewrite Hout.
      destruct (contains_point (selection_box o) press); reflexivity. }
    rewrite moves_keep_idle_translation;
      rewrite Hsame; [apply release_idle_box; exact Htr
                     | apply idle_not_active; exact Htr].
Qed.

Lemma gesture_leaves_other_box_witness :
  translation_box
    (gesture (default_overlay 1920 1080) (QPoint.mk 150 150)
       [QPoint.mk 600 200; QPoint.mk 500 150])
  = translation_box (default_overlay 1920 1080).
Proof.
  apply (proj1 (proj2 (gesture_leaves_other_box (default_overlay 1920 1080)
                         (QPoint.mk 150 150)
                         [QPoint.mk 600 200; QPoint.mk 500 150]
                         eq_refl eq_refl))).
  reflexivity.
Defined.

(** ** The capture thread, in general *)

Section PipelineFurther.

Variables ScreenShot Image : Type.

Lemma strip_truthy (text : str) :
  forallb isspace text = false -> truthy (strip text) = true.
Proof.
  intros H. destruct (truthy (strip text)) eqn:Ht; [reflexivity|].
  apply strip_falsy_iff in Ht. congruence.
Qed.



(** X11. A translation that raises (under [Exception]) is survived like a
    failed capture: nothing is queued, the overlay is exactly as it was, so
    the text shown stays, and the thread is back at the head of the loop
    after printing the error and sleeping. *)
Theorem translation_error_is_survived
  (c : Collaborators ScreenShot Image) (o : Overlay)
  (shot : ScreenShot) (img : Image) (text : str) (e : exn)
  (Hgrab : grab c (snapshot (selection_box o)) = Ok shot)
  (Himg : frombytes c shot = Ok img)
  (Hocr : image_to_string c img = Ok text)
  (Hblank : forallb isspace text = false)
  (Htr : translate c text = Raise e)
  (Hexc : is_Exception e = true) :
  iteration c o =
  ([Grab (snapshot (selection_box o)); FromBytes; ImageToString;
    Print (OcrText text); Translate text;
    Print (CaptureOrTranslateError e); Sleep 200],
   o, AtLoopHead).
Proof.
  unfold iteration, try_body, call, bindM, emit.
  rewrite Hgrab, Himg, Hocr, (strip_truthy text Hblank), Htr, Hexc.
  cbn. rewrite post_nothing. reflexivity.
Qed.

(** What any iteration does to the overlay: it queues at most one text and
    changes nothing else; it sleeps once unless the thread dies, and the
    thread dies only of an exception outside [Exception]. *)
Lemma iteration_frame (c : Collaborators ScreenShot Image) (o : Overlay) :
  exists texts,
    snd (fst (iteration c o)) = post o texts /\
    (List.length texts <= 1)%nat /\
    ((snd (iteration c o) = AtLoopHead /\
      count_sleeps (fst (fst (iteration c o))) = 1%nat) \/
     (exists e, snd (iteration c o) = Died e /\ is_Exception e = false /\
                count_sleeps (fst (fst (iteration c o))) = 0%nat /\
                ~ raises_only_Exception c)).
Proof.
  unfold iteration, try_body, call, bindM, emit.
  destruct (grab c (snapshot (selection_box o))) as [shot|e] eqn:Hgrab.
  2:{ destruct (is_Exception e) eqn:He; cbn; exists [];
        (split; [reflexivity|]); (split; [cbn; lia|]); [left; auto|].
      right. exists e. repeat split; auto.
      intros (H & _). rewrite (H _ _ Hgrab) in He. discriminate. }
  destruct (frombytes c shot) as [img|e] eqn:Himg.
  2:{ destruct (is_Exception e) eqn:He; cbn; exists [];
        (split; [reflexivity|]); (split; [cbn; lia|]); [left; auto|].
      right. exists e. repeat split; auto.
      intros (_ & H & _). rewrite (H _ _ Himg) in He. discriminate. }
  destruct (image_to_string c img) as [text|e] eqn:Hocr.
  2:{ destruct (is_Exception e) eqn:He; cbn; exists [];
        (split; [reflexivity|]); (split; [cbn; lia|]); [left; auto|].
      right. exists e. repeat split; auto.
      intros (_ & _ & H & _). rewrite (H _ _ Hocr) in He. discriminate. }
  destruct (truthy (strip text)).
  2:{ cbn. exists []. split; [reflexivity|]. split; [cbn; lia|]. left; auto. }
  destruct (translate c text) as [translated|e] eqn:Htr.
  - cbn. exists [translated]. split; [reflexivity|]. split; [cbn; lia|].
    left; auto.
  - destruct (is_Exception e) eqn:He; cbn; exists [];
      (split; [reflexivity|]); (split; [cbn; lia|]); [left; auto|].
    right. exists e. repeat split; auto.
    intros (_ & _ & _ & H). rewrite (H _ _ Htr) in He. discriminate.
Qed.

Lemma post_post (o : Overlay) (a b : list str) :
  post (post o a) b = post o (a ++ b).
Proof. unfold post; cbn. rewrite app_assoc. reflexivity. Qed.

Lemma count_sleeps_app (t u : list action) :
  count_sleeps (t ++ u) = (count_sleeps t + count_sleeps u)%nat.
Proof.
  induction t as [|a t IH]; cbn; [reflexivity|].
  destruct a; cbn; rewrite IH; reflexivity.
Qed.

Lemma capture_thread_posts
  (cs : list (Collaborators ScreenShot Image)) (o : Overlay) :
  exists texts,
    snd (fst (capture_and_translate cs o)) = post o texts /\
    (List.length texts <= List.length cs)%nat.
Proof.
  revert o. induction cs as [|c rest IH]; intros o.
  - exists []. cbn. rewrite post_nothing. split; [reflexivity | lia].
  - cbn [capture_and_translate].
    destruct (running o) eqn:Hrun.
    2:{ exists []. cbn. rewrite post_nothing. split; [reflexivity | lia]. }
    destruct (iteration_frame c o) as (texts & Hpost & Hlen & Hth).
    destruct (iteration c o) as [[t o'] th]. cbn [fst snd] in *. subst o'.
    destruct th as [| |e].
    + destruct (IH (post o texts)) as (more & Hmore & Hmlen).
      destruct (capture_and_translate rest (post o texts)) as [[t' o''] th'].
      cbn [fst snd] in *. subst o''.
      exists (texts ++ more). rewrite post_post.
      split; [reflexivity|]. rewrite length_app. cbn. lia.
    + exists texts. split; [reflexivity | cbn; lia].
    + exists texts. split; [reflexivity | cbn; lia].
Qed.

(** X12. The capture thread only ever queues texts: whatever the
    collaborators answer or raise, and for any number of iterations,
    [capture_and_translate] leaves the boxes, [running], the translated
    text, the settings and the repaint count of the overlay untouched, and
    appends to the queue at most one text per iteration. *)
Theorem capture_thread_only_queues
  (cs : list (Collaborators ScreenShot Image)) (o : Overlay) :
  let o' := snd (fst (capture_and_translate cs o)) in
  selection_box o' = selection_box o /\
  translation_box o' = translation_box o /\
  running o' = running o /\
  translated_text o' = translated_text o /\
  settings o' = settings o /\
  update_requests o' = update_requests o /\
  exists texts,
    posted o' = posted o ++ texts /\
    (List.length texts <= List.length cs)%nat.
Proof.
  cbv zeta. destruct (capture_thread_posts cs o) as (texts & -> & Hlen).
  repeat split. exists texts. split; [reflexivity | exact Hlen].
Qed.

Lemma running_post (o : Overlay) (texts : list str) :
  running (post o texts) = running o.
Proof. reflexivity. Qed.

(** X13. While [running] is set and the collaborators raise nothing outside
    [Exception], no failure of capture, image construction, recognition or
    translation ends the thread: after every one of the iterations it has
    slept exactly once and stands at the head of the loop. *)
Theorem capture_thread_survives_exceptions
  (cs : list (Collaborators ScreenShot Image)) (o : Overlay)
  (Hrun : running o = true)
  (Hexc : Forall raises_only_Exception cs) :
  snd (capture_and_translate cs o) = AtLoopHead /\
  count_sleeps (fst (fst (capture_and_translate cs o))) = List.length cs.
Proof.
  revert o Hrun. induction Hexc as [|c rest Hc _ IH]; intros o Hrun.
  - split; reflexivity.
  - cbn [capture_and_translate]. rewrite Hrun.
    destruct (iteration_frame c o) as (texts & Hpost & _ & Hth).
    destruct Hth as [[Hhead Hsleep]|(e & _ & _ & _ & Hbad)];
      [|contradiction].
    destruct (iteration c o) as [[t o'] th]. cbn [fst snd] in *.
    subst o' th.
    specialize (IH (post o texts) Hrun).
    destruct (capture_and_translate rest (post o texts)) as [[t' o''] th'].
    cbn [fst snd] in *. destruct IH as [-> Hcount].
    split; [reflexivity|]. rewrite count_sleeps_app, Hsleep, Hcount.
    reflexivity.
Qed.

End PipelineFurther.

Lemma capture_thread_survives_exceptions_witness :
  snd (capture_and_translate
         [stub_collaborators (Raise (ExternalError "ScreenShotError" "grab"))
            (lit "Hello") (Ok [20320%N; 22909%N]);
          stub_collaborators (Ok tt) (lit "Hello")
            (Raise (ExternalError "TranslationError" "network"))]
         (default_overlay 1920 1080)) = AtLoopHead.
Proof.
  assert (H1 : raises_only_Exception
                 (stub_collaborators
                    (Raise (ExternalError "ScreenShotError" "grab"))
                    (lit "Hello") (Ok [20320%N; 22909%N]))).
  { repeat split; cbn; intros; try discriminate.
    match goal with H : Raise _ = Raise _ |- _ => injection H as <- end.
    reflexivity. }
  assert (H2 : raises_only_Exception
                 (stub_collaborators (Ok tt) (lit "Hello")
                    (Raise (ExternalError "TranslationError" "network")))).
  { repeat split; cbn; intros; try discriminate.
    match goal with H : Raise _ = Raise _ |- _ => injection H as <- end.
    reflexivity. }
  apply (proj1 (capture_thread_survives_exceptions unit unit
           [stub_collaborators (Raise (ExternalError "ScreenShotError" "grab"))
              (lit "Hello") (Ok [20320%N; 22909%N]);
            stub_collaborators (Ok tt) (lit "Hello")
              (Raise (ExternalError "TranslationError" "network"))]
           (default_overlay 1920 1080) eq_refl
           (Forall_cons _ H1 (Forall_cons _ H2 (Forall_nil _))))).
Defined.


Lemma translation_error_is_survived_witness :
  iteration (stub_collaborators (Ok tt) (lit "Hello")
               (Raise (ExternalError "TranslationError" "network")))
    (default_overlay 1920 1080)
  = ([Grab (snapshot (selection_box (default_overlay 1920 1080)));
      FromBytes; ImageToString; Print (OcrText (lit "Hello"));
      Translate (lit "Hello");
      Print (CaptureOrTranslateError
               (ExternalError "TranslationError" "network"));
      Sleep 200],
     default_overlay 1920 1080, AtLoopHead).
Proof.
  apply (translation_error_is_survived unit unit
           (stub_collaborators (Ok tt) (lit "Hello")
              (Raise (ExternalError "TranslationError" "network")))
           (default_overlay 1920 1080) tt tt (lit "Hello")
           (ExternalError "TranslationError" "network")
           eq_refl eq_refl eq_refl eq_refl eq_refl eq_refl).
Defined.

(** ** The queued results and what is shown *)

Lemma last_default (A : Type) (l : list A) :
  forall a d d', List.last (a :: l) d = List.last (a :: l) d'.
Proof.
  induction l as [|b rest IH]; intros a d d'; [reflexivity|].
  change (List.last (b :: rest) d = List.last (b :: rest) d'). apply IH.
Qed.

Lemma fold_update_translation (texts : list str) :
  forall o,
    translated_text (fold_left update_translation texts o)
    = List.last texts (translated_text o) /\
    update_requests (fold_left update_translation texts o)
    = (update_requests o + List.length texts)%nat /\
    posted (fold_left update_translation texts o) = posted o /\
    selection_box (fold_left update_translation texts o) = selection_box o /\
    translation_box (fold_left update_translation texts o) = translation_box o /\
    running (fold_left update_translation texts o) = running o /\
    settings (fold_left update_translation texts o) = settings o /\
    screen_width (fold_left update_translation texts o) = screen_width o /\
    screen_height (fold_left update_translation texts o) = screen_height o.
Proof.
  induction texts as [|t rest IH]; intros o; cbn [fold_left].
  - cbn. repeat split. lia.
  - destruct (IH (update_translation o t))
      as (Ht & Hu & Hp & Hs & Htb & Hr & Hset & Hw & Hh).
    rewrite Ht, Hu, Hp, Hs, Htb, Hr, Hset, Hw, Hh.
    cbn [update_translation translated_text update_requests posted
           selection_box translation_box running settings screen_width
           screen_height List.length].
    repeat split; try lia.
    destruct rest as [|s rest']; [reflexivity|].
    change (List.last (t :: s :: rest') (translated_text o))
      with (List.last (s :: rest') (translated_text o)).
    apply last_default.
Qed.

Lemma deliver_posted_fields (o : Overlay) :
  translated_text (deliver_posted o)
  = List.last (posted o) (translated_text o) /\
  update_requests (deliver_posted o)
  = (update_requests o + List.length (posted o))%nat /\
  posted (deliver_posted o) = [] /\
  selection_box (deliver_posted o) = selection_box o /\
  translation_box (deliver_posted o) = translation_box o /\
  running (deliver_posted o) = running o.
Proof.
  unfold deliver_posted.
  match goal with
  | |- context [fold_left update_translation ?l ?o0] =>
      destruct (fold_update_translation l o0)
        as (Ht & Hu & Hp & Hs & Htb & Hr & _)
  end.
  rewrite Ht, Hu, Hp, Hs, Htb, Hr. repeat split.
Qed.

(** X14. When the event loop runs the queued calls, the last text queued
    is the one shown, the earlier ones are overwritten; [update] is called
    once per queued call, the queue is empty afterwards, and the boxes and
    [running] are not touched.  With nothing queued the text shown stays. *)
Theorem delivery_shows_the_last_text (o : Overlay) :
  translated_text (deliver_posted o)
  = List.last (posted o) (translated_text o) /\
  update_requests (deliver_posted o)
  = (update_requests o + List.length (posted o))%nat /\
  posted (deliver_posted o) = [] /\
  selection_box (deliver_posted o) = selection_box o /\
  translation_box (deliver_posted o) = translation_box o /\
  running (deliver_posted o) = running o.
Proof. exact (deliver_posted_fields o). Qed.

Lemma ui_step_frame (o : Overlay) (e : ui_event) :
  translated_text (ui_step o e) = translated_text o /\
  posted (ui_step o e) = posted o /\
  running (ui_step o e) = running o /\
  settings (ui_step o e) = settings o.
Proof.
  destruct e as [pos|pos|]; cbn [ui_step].
  - unfold mousePressEvent.
    destruct (contains_point (translation_box o) pos); [repeat split|].
    destruct (contains_point (selection_box o) pos); repeat split.
  - unfold mouseMoveEvent. cbv zeta.
    destruct (_ && _); [repeat split|].
    destruct (_ && _); repeat split.
  - repeat split.
Qed.

Lemma last_in_cons (A : Type) (l : list A) :
  forall d, In (List.last l d) (d :: l).
Proof.
  induction l as [|a rest IH]; intros d; [left; reflexivity|].
  destruct rest as [|b rest']; [right; left; reflexivity|].
  change (List.last (a :: b :: rest') d) with (List.last (b :: rest') d).
  destruct (IH d) as [H|H]; [left; exact H | right; right; exact H].
Qed.

Lemma run_text_provenance (evs : list overlay_event) (allowed : list str) :
  forall o,
    In (translated_text o) allowed ->
    incl (posted o) allowed ->
    incl (queued_texts evs) allowed ->
    In (translated_text (fold_left overlay_step evs o)) allowed /\
    incl (posted (fold_left overlay_step evs o)) allowed.
Proof.
  induction evs as [|ev rest IH]; intros o Htext Hposted Hqueued;
    cbn [fold_left]; [auto|].
  destruct ev as [e|text|]; cbn [overlay_step queued_texts] in *.
  - destruct (ui_step_frame o e) as (Ht & Hp & _).
    apply IH; [rewrite Ht | rewrite Hp |]; assumption.
  - apply IH.
    + exact Htext.
    + cbn [post posted]. apply incl_app; [exact Hposted|].
      intros t [<-|[]]. apply Hqueued. left; reflexivity.
    + intros t Ht. apply Hqueued. right; exact Ht.
  - destruct (deliver_posted_fields o) as (Ht & _ & Hp & _).
    apply IH; [|rewrite Hp; intros t []|exact Hqueued].
    rewrite Ht. destruct (last_in_cons _ (posted o) (translated_text o))
      as [<-|Hin]; [exact Htext | apply Hposted; exact Hin].
Qed.

Lemma run_without_delivery (evs : list overlay_event) :
  forall o,
    Forall (fun ev => ev <> Delivered) evs ->
    translated_text (fold_left overlay_step evs o) = translated_text o.
Proof.
  induction evs as [|ev rest IH]; intros o Hno; cbn [fold_left];
    [reflexivity|].
  pose proof (Forall_inv Hno) as Hev. cbv beta in Hev.
  rewrite (IH _ (Forall_inv_tail Hno)).
  destruct ev as [e|text|]; cbn [overlay_step].
  - apply ui_step_frame.
  - reflexivity.
  - congruence.
Qed.

(** X15. The text shown is never made up: after any sequence of pointer
    events, calls queued by the capture thread and runs of the event loop,
    [translated_text] is the text the overlay started with, a text that
    was waiting in the queue, or one of the texts queued since.  A pointer
    event never changes it (nor the queue), queuing a call does not change
    it either: over any sequence of events in which the event loop does
    not run the queue, the text shown stays what it was. *)
Theorem shown_text_was_queued (evs : list overlay_event) (o : Overlay) :
  In (translated_text (fold_left overlay_step evs o))
     (translated_text o :: posted o ++ queued_texts evs) /\
  (forall e : ui_event,
      translated_text (ui_step o e) = translated_text o /\
      posted (ui_step o e) = posted o) /\
  (forall pointer_events : list ui_event,
      translated_text (fold_left ui_step pointer_events o)
      = translated_text o) /\
  (forall text, translated_text (overlay_step o (Queued text))
                = translated_text o) /\
  (Forall (fun ev => ev <> Delivered) evs ->
   translated_text (fold_left overlay_step evs o) = translated_text o).
Proof.
  split; [|split; [|split; [|split]]].
  - refine (proj1 (run_text_provenance evs
                     (translated_text o :: posted o ++ queued_texts evs) o
                     _ _ _)).
    + left; reflexivity.
    + intros t Ht. right. apply in_or_app. left; exact Ht.
    + intros t Ht. right. apply in_or_app. right; exact Ht.
  - intros e. destruct (ui_step_frame o e) as (Ht & Hp & _). auto.
  - intros pointer_events. revert o.
    induction pointer_events as [|e rest IH]; intros o; cbn [fold_left];
      [reflexivity|].
    rewrite IH. apply ui_step_frame.
  - reflexivity.
  - apply run_without_delivery.
Qed.

Lemma shown_text_was_queued_witness :
  translated_text
    (fold_left overlay_step
       [Queued (lit "first"); Pointer (Press (QPoint.mk 500 150));
        Pointer (Move (QPoint.mk 520 150)); Queued (lit "second");
        Pointer Release]
       (update_translation (default_overlay 1920 1080) (lit "shown")))
  = lit "shown".
Proof.
  apply (proj2 (proj2 (proj2 (proj2
           (shown_text_was_queued
              [Queued (lit "first"); Pointer (Press (QPoint.mk 500 150));
               Pointer (Move (QPoint.mk 520 150)); Queued (lit "second");
               Pointer Release]
              (update_translation (default_overlay 1920 1080)
                 (lit "shown"))))))).
  repeat constructor; discriminate.
Defined.

Lemma press_keeps_role (b : DraggableResizableBox) (pos : QPoint.t) :
  is_translation_box (fst (mouse_press_event b pos)) = is_translation_box b.
Proof.
  unfold mouse_press_event.
  destruct (QRect.contains (rect b) pos); [|reflexivity].
  destruct (in_resize_corner b pos); reflexivity.
Qed.

Lemma move_keeps_role (sw sh : Z) (b : DraggableResizableBox) (pos : QPoint.t) :
  is_translation_box (fst (mouse_move_event sw sh b pos)) = is_translation_box b.
Proof.
  unfold mouse_move_event.
  destruct (dragging b); [reflexivity|].
  destruct (resizing b); reflexivity.
Qed.

Lemma overlay_step_keeps_roles (o : Overlay) (ev : overlay_event) :
  box_roles o -> box_roles (overlay_step o ev).
Proof.
  unfold box_roles. intros [Hsel Htr].
  destruct ev as [[pos|pos|]|text|]; cbn [overlay_step ui_step].
  - unfold mousePressEvent.
    destruct (contains_point (translation_box o) pos);
      [cbn [set_boxes selection_box translation_box];
       rewrite press_keeps_role; auto|].
    destruct (contains_point (selection_box o) pos);
      [cbn [set_boxes selection_box translation_box];
       rewrite press_keeps_role; auto | auto].
  - pose proof (move_keeps_role (screen_width o) (screen_height o)
                  (selection_box o) pos) as Hs.
    pose proof (move_keeps_role (screen_width o) (screen_height o)
                  (translation_box o) pos) as Ht.
    unfold mouseMoveEvent. cbv zeta.
    destruct (dragging (translation_box o) || resizing (translation_box o));
      destruct (dragging (selection_box o) || resizing (selection_box o));
      cbn [andb];
      repeat match goal with
             | |- context [if ?c then _ else _] => destruct c
             end;
      cbn [set_boxes selection_box translation_box];
      rewrite ?Hs, ?Ht; auto.
  - cbn. auto.
  - cbn. auto.
  - destruct (deliver_posted_fields o) as (_ & _ & _ & -> & -> & _).
    auto.
Qed.

Lemma paint_selection (b : DraggableResizableBox) (text : str) :
  is_translation_box b = false ->
  drawn_rects (paint b text) = [rect b] /\ drawn_texts (paint b text) = [].
Proof.
  intros Hrole. unfold paint. destruct (color b) as [[r g] bl].
  rewrite Hrole. split; reflexivity.
Qed.

Lemma paint_translation (b : DraggableResizableBox) (text : str) :
  is_translation_box b = true ->
  drawn_rects (paint b text) = [rect b] /\
  drawn_texts (paint b text)
  = if truthy text then [(adjusted (rect b) 10 10 (-10) (-10), text)] else [].
Proof.
  intros Hrole. unfold paint. destruct (color b) as [[r g] bl].
  rewrite Hrole. destruct (truthy text); split; reflexivity.
Qed.

Lemma drawn_rects_app (a b : list painter_call) :
  drawn_rects (a ++ b) = drawn_rects a ++ drawn_rects b.
Proof.
  induction a as [|c a IH]; cbn; [reflexivity|].
  destruct c; cbn; rewrite IH; reflexivity.
Qed.

Lemma drawn_texts_app (a b : list painter_call) :
  drawn_texts (a ++ b) = drawn_texts a ++ drawn_texts b.
Proof.
  induction a as [|c a IH]; cbn; [reflexivity|].
  destruct c; cbn; rewrite IH; reflexivity.
Qed.

(** X16. In every overlay reached from startup by pointer events, queued
    calls and runs of the event loop, [paintEvent] draws the rectangle of
    the selection box and then that of the translation box, and draws a
    text exactly when [translated_text] is not empty: once, that text, in
    the rectangle of the translation box drawn in by 10 pixels on each
    side; the selection box never shows text. *)
Theorem paint_shows_text_in_translation_box (todecimal : N -> option N)
  (sw sh : Z) (stored : QSettings) (o0 : Overlay)
  (evs : list overlay_event)
  (Hinit : Overlay_init todecimal sw sh stored = Ok o0) :
  let o := fold_left overlay_step evs o0 in
  let inner := adjusted (rect (translation_box o)) 10 10 (-10) (-10) in
  drawn_rects (paintEvent o)
  = [rect (selection_box o); rect (translation_box o)] /\
  drawn_texts (paintEvent o)
  = (if truthy (translated_text o) then [(inner, translated_text o)] else []) /\
  drawn_texts (paint (selection_box o) (translated_text o)) = [] /\
  QRect.x inner = QRect.x (rect (translation_box o)) + 10 /\
  QRect.y inner = QRect.y (rect (translation_box o)) + 10 /\
  QRect.width inner = QRect.width (rect (translation_box o)) - 20 /\
  QRect.height inner = QRect.height (rect (translation_box o)) - 20.
Proof.
  assert (Hroles0 : box_roles o0).
  { unfold Overlay_init, init_ui in Hinit.
    destruct (load_geometry todecimal _ default_selection_rect);
      [|discriminate].
    destruct (load_geometry todecimal _ default_translation_rect);
      [|discriminate].
    cbn in Hinit. injection Hinit as <-. split; reflexivity. }
  assert (Hroles : box_roles (fold_left overlay_step evs o0)).
  { clear Hinit. revert o0 Hroles0.
    induction evs as [|ev rest IH]; intros o0 H0; cbn [fold_left];
      [exact H0 | apply IH, overlay_step_keeps_roles, H0]. }
  cbv zeta. destruct Hroles as [Hsel Htr].
  destruct (paint_selection _ (translated_text (fold_left overlay_step evs o0))
              Hsel) as [Hsr Hst].
  destruct (paint_translation _ (translated_text (fold_left overlay_step evs o0))
              Htr) as [Htr_r Htr_t].
  unfold paintEvent.
  rewrite drawn_rects_app, drawn_texts_app, Hsr, Hst, Htr_r, Htr_t.
  split; [reflexivity|]. split; [reflexivity|]. split; [reflexivity|].
  unfold adjusted, QRect.x, QRect.y, QRect.width, QRect.height.
  cbn [QRect.x1 QRect.y1 QRect.x2 QRect.y2]. lia.
Qed.

Lemma paint_shows_text_in_translation_box_witness :
  drawn_texts
    (paintEvent
       (fold_left overlay_step
          [Queued (lit "first"); Pointer (Press (QPoint.mk 500 150));
           Queued [20320%N; 22909%N]; Delivered;
           Pointer (Move (QPoint.mk 520 150))]
          (default_overlay 1920 1080)))
  = [(QRect.make 450 110 280 180, [20320%N; 22909%N])].
Proof.
  apply (proj1 (proj2 (paint_shows_text_in_translation_box ascii_only
                         1920 1080 [] (default_overlay 1920 1080)
                         [Queued (lit "first");
                          Pointer (Press (QPoint.mk 500 150));
                          Queued [20320%N; 22909%N]; Delivered;
                          Pointer (Move (QPoint.mk 520 150))]
                         eq_refl))).
Defined.

(** ** From recognition to the screen *)



(** ** The stored text, in general *)

(** X18. [init_ui] accepts a stored text exactly when it is four fields
    between commas, each one an integer for [int]; any other text (no
    field, too few, too many, a field that is no integer) raises, and what
    is raised is always a [ValueError]. *)
Theorem stored_text_is_accepted_iff_four_integers
  (todecimal : N -> option N) (s : str) :
  ((exists l t w h, parse_geometry todecimal s = Ok (l, t, w, h))
   <-> four_integers todecimal s) /\
  (~ four_integers todecimal s ->
   exists msg, parse_geometry todecimal s = Raise (ValueError msg)) /\
  (forall e, parse_geometry todecimal s = Raise e ->
             exists msg, e = ValueError msg) /\
  (forall fields, split comma s = fields ->
                  List.length fields <> 4%nat ->
                  ~ four_integers todecimal s).
Proof.
  split; [symmetry; apply parse_geometry_four_integers|].
  split; [|split].
  - intros Hbad.
    destruct (parse_geometry todecimal s) as [[[[a b] c] d]|e] eqn:Hp.
    + exfalso. apply Hbad, parse_geometry_four_integers.
      exists a, b, c, d. exact Hp.
    + destruct (parse_geometry_raises_ValueError _ _ _ Hp) as [msg ->].
      exists msg. reflexivity.
  - intros e He. exact (parse_geometry_raises_ValueError _ _ _ He).
  - intros fields Hsplit Hlen (f1&f2&f3&f4&a&b&c&d&Hs&_).
    rewrite Hs in Hsplit. subst fields. apply Hlen. reflexivity.
Qed.

Lemma stored_text_is_accepted_iff_four_integers_witness :
  exists msg,
    parse_geometry ascii_only (lit "100,100,300,200,") = Raise (ValueError msg).
Proof.
  apply (proj1 (proj2 (stored_text_is_accepted_iff_four_integers ascii_only
                         (lit "100,100,300,200,")))).
  apply (proj2 (proj2 (proj2 (stored_text_is_accepted_iff_four_integers
                                ascii_only (lit "100,100,300,200,"))))
           _ eq_refl).
  cbn. discriminate.
Defined.
